(** * ZipCodeFinder: the client-side controller of [static/script.js]

    A shallow embedding of the page controller: its three globals
    ([currentSessionId], [processingInterval], [isProcessing]), the part of
    the DOM it reads and writes, the browser's interval timers, and the
    requests it sends.  An [async] function is split where it awaits: the
    part that runs when the function is called (it may send a request), and
    the continuation that runs when the request settles. *)

From Stdlib Require Import ZArith String Ascii List Bool Lia.
From Stdlib Require Import DecimalString.
From Stdlib Require Uint63 Floats.
From stdpp Require Import base decidable option functions list gmap sets strings.

Local Open Scope Z_scope.
Local Open Scope string_scope.
Local Open Scope list_scope.

(** ** JavaScript strings *)

Module JSString.

(** [String.prototype.toLowerCase] on one code unit.  Only A-Z are mapped:
    no other character lower-cases to a character of ['.csv']. *)
Definition lower_ascii (c : ascii) : ascii :=
  let n := nat_of_ascii c in
  if ((65 <=? n) && (n <=? 90))%nat then ascii_of_nat (n + 32) else c.

Fixpoint toLowerCase (s : string) : string :=
  match s with
  | EmptyString => EmptyString
  | String c s' => String (lower_ascii c) (toLowerCase s')
  end.

(** [s.endsWith(suffix)]: the end position is [s.length], the start is the
    end minus the length of [suffix], and a negative start gives [false]. *)
Definition endsWith (s suffix : string) : bool :=
  let n := String.length s in
  let m := String.length suffix in
  if (m <=? n)%nat then String.eqb (substring (n - m) m s) suffix else false.

(** Truthiness of a string: only [''] is falsy. *)
Definition truthy (s : string) : bool := negb (String.eqb s "").

(** The characters a Rocq string literal cannot hold as they are. *)
Definition dquote : string := String (ascii_of_nat 34) EmptyString.
Definition newline : string := String (ascii_of_nat 10) EmptyString.

(** Number to string, for the integers the page shows: every digit is
    printed, as [String(n)] does for an integer below [10^21] in absolute
    value. *)
Definition of_Z (z : Z) : string := NilZero.string_of_int (Z.to_int z).

End JSString.

(** ** What the server sends *)

Record LogEntry := {
  timestamp : string;
  message : string;
  type : string }.

(** The body of [/status/{session_id}].  A field the code reads through
    [|| 0] or tests for truthiness may be missing, hence the options;
    [processing_complete] is the truthiness of that field.  Counts and the
    percentage are whole numbers. *)
Record Status := {
  progress_percent : option Z;
  current_address : option string;
  total_processed : option Z;
  successful_geocodes : option Z;
  failed_geocodes : option Z;
  processing_complete : bool;
  results_log : option (list LogEntry) }.

(** The body of [/upload] and of [/process]. *)
Record UploadResult := {
  session_id : option string;
  filename : string;
  headers : list string;
  upload_error : option string }.

Record ProcessResult := {
  process_error : option string }.

(** How a [fetch] followed by [response.json()] settles. *)
Inductive Fetched (A : Type) : Type :=
| Rejected (msg : string)                (* fetch() rejects: transport error *)
| Unparsable (ok : bool) (msg : string)  (* response.json() rejects *)
| Parsed (ok : bool) (body : A).         (* ok = response.ok, a 2xx status *)

Arguments Rejected {A} msg.
Arguments Unparsable {A} ok msg.
Arguments Parsed {A} ok body.

(** [stopProcessing] never reads the body of the response. *)
Inductive StopOutcome : Type :=
| StopRejected (msg : string)
| StopResponse (ok : bool).

(** The four column bindings sent to [/process]. *)
Record Config := {
  cfg_session_id : string;
  address_column : string;
  city_column : string;
  state_column : string;
  zip_column : string }.

Inductive request : Type :=
| PostUpload (file_name : string)
| PostProcess (config : Config)
| GetStatus (sid : string)
| PostStop (sid : string).

(** ** The page *)

(** The elements the script holds by id, and [uploadArea.querySelector('p')]. *)
Inductive element : Type :=
| uploadArea_p | configSection | progressSection | resultsSection
| downloadSection | processBtn | stopBtn | progressFill | progressText
| processedCount | successCount | failedCount | successRate.

Inductive select : Type :=
| addressColumn | cityColumn | stateColumn | zipColumn.

Global Instance element_eq_dec : EqDecision element.
Proof. solve_decision. Defined.

Global Instance select_eq_dec : EqDecision select.
Proof. solve_decision. Defined.

(** What an element holds was last assigned through [textContent] or through
    [innerHTML]. *)
Inductive content : Type :=
| textContent (s : string)
| innerHTML (s : string).

(** One [div] appended to [resultsLog] by [updateResultsLog]. *)
Record LogDiv := {
  className : string;
  div_innerHTML : string }.

(** [resultsLog.scrollTop]: untouched, or assigned [resultsLog.scrollHeight]
    when the log held the given children. *)
Inductive scroll_position : Type :=
| ScrollUntouched
| ScrollHeightOf (children : list LogDiv).

Record Page := {
  display : element -> string;          (* style.display *)
  width : element -> string;            (* style.width *)
  content_of : element -> content;
  classList : element -> gset string;
  options : select -> list string;
  value : select -> string;
  resultsLog : list LogDiv;
  scrollTop : scroll_position;
  downloadBtn_onclick : bool;           (* a handler is installed *)
  alerts : list string;                 (* alert(...) calls, oldest first *)
  console_errors : list string }.       (* console.error(...) calls *)

(** The globals of the script, the browser's live interval timers, and the
    page. *)
Record State := {
  currentSessionId : option string;
  processingInterval : option nat;
  isProcessing : bool;
  intervals : gset nat;                 (* timers set and not yet cleared *)
  next_interval : nat;                  (* the next handle setInterval returns *)
  page : Page }.

Definition set_display (e : element) (v : string) (p : Page) : Page :=
  {| display := <[e := v]> (display p); width := width p;
     content_of := content_of p; classList := classList p;
     options := options p; value := value p; resultsLog := resultsLog p;
     scrollTop := scrollTop p; downloadBtn_onclick := downloadBtn_onclick p;
     alerts := alerts p; console_errors := console_errors p |}.

Definition set_width (e : element) (v : string) (p : Page) : Page :=
  {| display := display p; width := <[e := v]> (width p);
     content_of := content_of p; classList := classList p;
     options := options p; value := value p; resultsLog := resultsLog p;
     scrollTop := scrollTop p; downloadBtn_onclick := downloadBtn_onclick p;
     alerts := alerts p; console_errors := console_errors p |}.

Definition set_content (e : element) (v : content) (p : Page) : Page :=
  {| display := display p; width := width p;
     content_of := <[e := v]> (content_of p); classList := classList p;
     options := options p; value := value p; resultsLog := resultsLog p;
     scrollTop := scrollTop p; downloadBtn_onclick := downloadBtn_onclick p;
     alerts := alerts p; console_errors := console_errors p |}.

Definition classList_add (e : element) (c : string) (p : Page) : Page :=
  {| display := display p; width := width p;
     content_of := content_of p;
     classList := <[e := {[ c ]} ∪ classList p e]> (classList p);
     options := options p; value := value p; resultsLog := resultsLog p;
     scrollTop := scrollTop p; downloadBtn_onclick := downloadBtn_onclick p;
     alerts := alerts p; console_errors := console_errors p |}.

Definition set_options (o : select -> list string) (p : Page) : Page :=
  {| display := display p; width := width p;
     content_of := content_of p; classList := classList p;
     options := o; value := value p; resultsLog := resultsLog p;
     scrollTop := scrollTop p; downloadBtn_onclick := downloadBtn_onclick p;
     alerts := alerts p; console_errors := console_errors p |}.

Definition set_value (v : select -> string) (p : Page) : Page :=
  {| display := display p; width := width p;
     content_of := content_of p; classList := classList p;
     options := options p; value := v; resultsLog := resultsLog p;
     scrollTop := scrollTop p; downloadBtn_onclick := downloadBtn_onclick p;
     alerts := alerts p; console_errors := console_errors p |}.

Definition set_resultsLog (l : list LogDiv) (p : Page) : Page :=
  {| display := display p; width := width p;
     content_of := content_of p; classList := classList p;
     options := options p; value := value p; resultsLog := l;
     scrollTop := scrollTop p; downloadBtn_onclick := downloadBtn_onclick p;
     alerts := alerts p; console_errors := console_errors p |}.

Definition set_scrollTop (v : scroll_position) (p : Page) : Page :=
  {| display := display p; width := width p;
     content_of := content_of p; classList := classList p;
     options := options p; value := value p; resultsLog := resultsLog p;
     scrollTop := v; downloadBtn_onclick := downloadBtn_onclick p;
     alerts := alerts p; console_errors := console_errors p |}.

Definition set_downloadBtn_onclick (p : Page) : Page :=
  {| display := display p; width := width p;
     content_of := content_of p; classList := classList p;
     options := options p; value := value p; resultsLog := resultsLog p;
     scrollTop := scrollTop p; downloadBtn_onclick := true;
     alerts := alerts p; console_errors := console_errors p |}.

Definition alert (m : string) (p : Page) : Page :=
  {| display := display p; width := width p;
     content_of := content_of p; classList := classList p;
     options := options p; value := value p; resultsLog := resultsLog p;
     scrollTop := scrollTop p; downloadBtn_onclick := downloadBtn_onclick p;
     alerts := alerts p ++ [m]; console_errors := console_errors p |}.

Definition console_error (m : string) (p : Page) : Page :=
  {| display := display p; width := width p;
     content_of := content_of p; classList := classList p;
     options := options p; value := value p; resultsLog := resultsLog p;
     scrollTop := scrollTop p; downloadBtn_onclick := downloadBtn_onclick p;
     alerts := alerts p; console_errors := console_errors p ++ [m] |}.

(** Run a page update in a state. *)
Definition on_page (f : Page -> Page) (s : State) : State :=
  {| currentSessionId := currentSessionId s;
     processingInterval := processingInterval s;
     isProcessing := isProcessing s;
     intervals := intervals s;
     next_interval := next_interval s;
     page := f (page s) |}.

Definition set_currentSessionId (v : option string) (s : State) : State :=
  {| currentSessionId := v;
     processingInterval := processingInterval s;
     isProcessing := isProcessing s;
     intervals := intervals s;
     next_interval := next_interval s;
     page := page s |}.

Definition set_isProcessing (v : bool) (s : State) : State :=
  {| currentSessionId := currentSessionId s;
     processingInterval := processingInterval s;
     isProcessing := v;
     intervals := intervals s;
     next_interval := next_interval s;
     page := page s |}.

(** [processingInterval = setInterval(updateProgress, 1000)]: the browser
    hands out a fresh handle, and the timer is live from then on. *)
Definition setInterval_processingInterval (s : State) : State :=
  {| currentSessionId := currentSessionId s;
     processingInterval := Some (next_interval s);
     isProcessing := isProcessing s;
     intervals := {[ next_interval s ]} ∪ intervals s;
     next_interval := S (next_interval s);
     page := page s |}.

(** [clearInterval(processingInterval)]: the timer of that handle, if there
    is one, is no longer live; [null] clears nothing.  The variable keeps
    its value. *)
Definition clearInterval_processingInterval (s : State) : State :=
  {| currentSessionId := currentSessionId s;
     processingInterval := processingInterval s;
     isProcessing := isProcessing s;
     intervals := match processingInterval s with
                  | Some h => intervals s ∖ {[ h ]}
                  | None => intervals s
                  end;
     next_interval := next_interval s;
     page := page s |}.

(** The page as loaded, before any script has run. *)
Definition initial_page : Page :=
  {| display := fun _ => ""; width := fun _ => "";
     content_of := fun _ => textContent "";
     classList := fun _ => ∅;
     options := fun _ => []; value := fun _ => "";
     resultsLog := []; scrollTop := ScrollUntouched;
     downloadBtn_onclick := false; alerts := []; console_errors := [] |}.

Definition initial_state : State :=
  {| currentSessionId := None; processingInterval := None;
     isProcessing := false; intervals := ∅; next_interval := 1;
     page := initial_page |}.

(** [!currentSessionId] is false exactly for a non-empty identifier. *)
Definition has_session (s : State) : option string :=
  match currentSessionId s with
  | Some sid => if JSString.truthy sid then Some sid else None
  | None => None
  end.

(** ** JavaScript numbers

    A Number is an IEEE 754 binary64 value.  The finite ones are written
    here as an integer mantissa times a power of two, and an operation is
    the exact result rounded to the nearest value with a 53-bit mantissa,
    ties to the even mantissa.  The exponent is not bounded: the quotients
    and products of the page stay far inside the normal range. *)

Module Binary64.

Local Open Scope Z_scope.

Record float := { mant : Z; expo : Z }.

Definition prec : Z := 53.

(** The integer nearest to [n / d], ties to even ([0 <= n], [0 < d]). *)
Definition rne_div (n d : Z) : Z :=
  let q := n / d in
  let r := n mod d in
  if 2 * r <? d then q
  else if d <? 2 * r then q + 1
  else if Z.even q then q else q + 1.

(** [floor (log2 (a / b))] for positive [a] and [b]. *)
Definition ilog2_ratio (a b : Z) : Z :=
  let d := Z.log2 a - Z.log2 b in
  if a * 2 ^ Z.max 0 (- d) <? b * 2 ^ Z.max 0 d then d - 1 else d.

(** The double nearest to [a / b], for positive [a] and [b]. *)
Definition round_pos (a b : Z) : float :=
  let e := ilog2_ratio a b - (prec - 1) in
  let m := rne_div (a * 2 ^ Z.max 0 (- e)) (b * 2 ^ Z.max 0 e) in
  if m =? 2 ^ prec then {| mant := 2 ^ (prec - 1); expo := e + 1 |}
  else {| mant := m; expo := e |}.

(** The double nearest to [a / b], for [0 < b].  The exponent is not
    bounded: the result is that of the machine where the quotient is in the
    normal range of binary64, as it is for the counts the page shows. *)
Definition round (a b : Z) : float :=
  match a with
  | Z0 => {| mant := 0; expo := 0 |}
  | Zpos _ => round_pos a b
  | Zneg _ =>
      let x := round_pos (- a) b in {| mant := - mant x; expo := expo x |}
  end.

Definition of_Z (n : Z) : float := round n 1.

Definition add (x y : float) : float :=
  let e := Z.min (expo x) (expo y) in
  round ((mant x * 2 ^ (expo x - e) + mant y * 2 ^ (expo y - e)) * 2 ^ Z.max 0 e)
        (2 ^ Z.max 0 (- e)).

Definition mul (x y : float) : float :=
  let e := expo x + expo y in
  round (mant x * mant y * 2 ^ Z.max 0 e) (2 ^ Z.max 0 (- e)).

(** [x / y] for a positive [y]. *)
Definition div (x y : float) : float :=
  let e := expo x - expo y in
  round (mant x * 2 ^ Z.max 0 e) (mant y * 2 ^ Z.max 0 (- e)).

(** [0 < x] *)
Definition is_pos (x : float) : bool := 0 <? mant x.

(** [Math.round]: the integer nearest to [x], a tie going up;
    that is [floor (x + 1/2)], exactly. *)
Definition Math_round (x : float) : Z :=
  if 0 <=? expo x then mant x * 2 ^ expo x
  else (2 * mant x + 2 ^ (- expo x)) / 2 ^ (- expo x + 1).

(** [x] is the integer [n], exactly. *)
Definition holds (x : float) (n : Z) : Prop :=
  exists sh, 0 <= sh /\ mant x = n * 2 ^ sh /\ expo x = - sh.

End Binary64.

(** ** The controller *)

(** [x || 0] on a number that may be missing: [0] is itself falsy. *)
Definition or_zero (x : option Z) : Z := default 0 x.

(** [x || d] on a string that may be missing. *)
Definition or_string (x : option string) (d : string) : string :=
  match x with
  | Some s => if JSString.truthy s then s else d
  | None => d
  end.

Definition showError (m : string) (s : State) : State :=
  on_page (alert ("Error: " ++ m)) s.

Definition loading_markup : string :=
  "<div class=" ++ JSString.dquote ++ "loading" ++ JSString.dquote ++ "></div>".

Definition showLoading (m : string) (s : State) : State :=
  on_page (fun p =>
    set_display progressSection "block"
      (set_content progressText (innerHTML (loading_markup ++ m)) p)) s.

Definition hideLoading (s : State) : State :=
  if isProcessing s then s
  else on_page (set_display progressSection "none") s.

(** *** Upload *)

(** [array.indexOf(x)], [None] for [-1]. *)
Fixpoint indexOf (x : string) (l : list string) : option nat :=
  match l with
  | [] => None
  | y :: l' => if String.eqb y x then Some O else option_map S (indexOf x l')
  end.

Definition patterns (sel : select) : list string :=
  match sel with
  | addressColumn => ["address"; "street"; "property address"; "property_address"]
  | cityColumn => ["city"; "town"; "municipality"]
  | stateColumn => ["state"; "st"; "province"]
  | zipColumn => ["zip"; "zipcode"; "zip code"; "postal"; "postal code"]
  end.

(** The inner loop of [autoSelectColumns]: the header at the index of the
    first pattern found among the lower-cased headers, else the value the
    select already has. *)
Fixpoint first_match (patternList : list string) (hs : list string)
    (current : string) : string :=
  match patternList with
  | [] => current
  | pattern :: rest =>
      match indexOf pattern (map JSString.toLowerCase hs) with
      | Some index => nth index hs current
      | None => first_match rest hs current
      end
  end.

Definition autoSelectColumns (hs : list string) (p : Page) : Page :=
  set_value (fun sel => first_match (patterns sel) hs (value p sel)) p.

(** Every select gets one option per header; a select whose options were
    replaced shows its first option. *)
Definition populateColumnSelects (hs : list string) (p : Page) : Page :=
  autoSelectColumns hs
    (set_value (fun _ => hd "" hs) (set_options (fun _ => hs) p)).

Definition showConfigSection (name : string) (p : Page) : Page :=
  classList_add configSection "fade-in"
    (set_display configSection "block"
      (set_content uploadArea_p (textContent ("Selected: " ++ name)) p)).

(** [handleFileUpload(file)] up to its [await fetch('/upload', ...)]. *)
Definition handleFileUpload (file_name : string) (s : State)
    : State * list request :=
  if negb (JSString.endsWith (JSString.toLowerCase file_name) ".csv")
  then (showError "Please select a CSV file." s, [])
  else (showLoading "Uploading file..." s, [PostUpload file_name]).

(** ... and from there on. *)
Definition handleFileUpload_settled (r : Fetched UploadResult) (s : State)
    : State :=
  match r with
  | Parsed ok result =>
      let s := hideLoading s in
      if ok then
        on_page (fun p =>
          showConfigSection (filename result)
            (populateColumnSelects (headers result) p))
          (set_currentSessionId (session_id result) s)
      else showError (or_string (upload_error result) "Upload failed") s
  | Rejected msg | Unparsable _ msg =>
      showError ("Upload failed: " ++ msg) (hideLoading s)
  end.

(** *** Launch *)

Definition read_config (sid : string) (p : Page) : Config :=
  {| cfg_session_id := sid;
     address_column := value p addressColumn;
     city_column := value p cityColumn;
     state_column := value p stateColumn;
     zip_column := value p zipColumn |}.

(** The test of line 166, negated: every binding is truthy. *)
Definition mapping_complete (c : Config) : bool :=
  negb (negb (JSString.truthy (address_column c))
        || negb (JSString.truthy (city_column c))
        || negb (JSString.truthy (state_column c))
        || negb (JSString.truthy (zip_column c))).

(** [processFile()] up to its [await fetch('/process', ...)]. *)
Definition processFile (s : State) : State * list request :=
  match has_session s with
  | None => (showError "No file uploaded" s, [])
  | Some sid =>
      let config := read_config sid (page s) in
      if negb (mapping_complete config)
      then (showError "Please select all column mappings" s, [])
      else (s, [PostProcess config])
  end.

Definition showProgressSection (p : Page) : Page :=
  classList_add progressSection "slide-up" (set_display progressSection "block" p).

Definition showResultsSection (p : Page) : Page :=
  classList_add resultsSection "slide-up" (set_display resultsSection "block" p).

Definition startProcessing (s : State) : State :=
  setInterval_processingInterval
    (on_page (fun p =>
       showResultsSection
         (showProgressSection
           (set_display stopBtn "inline-block"
             (set_display processBtn "none" p))))
       (set_isProcessing true s)).

Definition processFile_settled (r : Fetched ProcessResult) (s : State) : State :=
  match r with
  | Parsed ok result =>
      if ok then startProcessing s
      else showError (or_string (process_error result) "Processing failed to start") s
  | Rejected msg | Unparsable _ msg =>
      showError ("Processing failed: " ++ msg) s
  end.

(** *** Stop *)

(** [stopProcessing()] up to its [await fetch(`/stop/${currentSessionId}`)]. *)
Definition stopProcessing (s : State) : State * list request :=
  match has_session s with
  | None => (s, [])
  | Some sid => (s, [PostStop sid])
  end.

Definition stopProcessing_settled (r : StopOutcome) (s : State) : State :=
  match r with
  | StopResponse ok =>
      if ok then
        on_page (fun p =>
          set_content progressText (textContent "Processing stopped by user")
            (set_display stopBtn "none"
              (set_display processBtn "inline-block" p)))
          (set_isProcessing false (clearInterval_processingInterval s))
      else s
  | StopRejected msg => showError ("Failed to stop processing: " ++ msg) s
  end.

(** *** Polling *)

(** [updateProgress()] up to its [await fetch(`/status/${currentSessionId}`)]:
    one tick of the interval timer. *)
Definition updateProgress (s : State) : State * list request :=
  match has_session s with
  | None => (s, [])
  | Some sid => if isProcessing s then (s, [GetStatus sid]) else (s, [])
  end.

(** Lines 258-259.  [None] is [NaN]: [undefined / total]. *)
Definition success_rate (status : Status) : option Z :=
  let total :=
    Binary64.add (Binary64.of_Z (or_zero (successful_geocodes status)))
                 (Binary64.of_Z (or_zero (failed_geocodes status))) in
  if Binary64.is_pos total then
    match successful_geocodes status with
    | Some successful =>
        Some (Binary64.Math_round
                (Binary64.mul (Binary64.div (Binary64.of_Z successful) total)
                              (Binary64.of_Z 100)))
    | None => None
    end
  else Some 0.

Definition show_rate (rate : option Z) : string :=
  match rate with
  | Some r => JSString.of_Z r
  | None => "NaN"
  end.

(** [element.style.width = percent + '%']: a negative percentage is no
    valid width, and the browser then keeps the width the element had. *)
Definition assign_width (e : element) (percent : Z) (p : Page) : Page :=
  if (0 <=? percent)%Z then set_width e (JSString.of_Z percent ++ "%") p else p.

Definition updateProgressDisplay (status : Status) (p : Page) : Page :=
  let progress := or_zero (progress_percent status) in
  let p := assign_width progressFill progress p in
  let p :=
    match current_address status with
    | Some a =>
        if JSString.truthy a
        then set_content progressText (textContent ("Processing: " ++ a)) p
        else set_content progressText
               (textContent ("Progress: " ++ JSString.of_Z progress ++ "%")) p
    | None =>
        set_content progressText
          (textContent ("Progress: " ++ JSString.of_Z progress ++ "%")) p
    end in
  let p := set_content processedCount
             (textContent (JSString.of_Z (or_zero (total_processed status)))) p in
  let p := set_content successCount
             (textContent (JSString.of_Z (or_zero (successful_geocodes status)))) p in
  let p := set_content failedCount
             (textContent (JSString.of_Z (or_zero (failed_geocodes status)))) p in
  set_content successRate (textContent (show_rate (success_rate status) ++ "%")) p.

(** [array.slice(-n)]: the last [n] elements, all of them when there are fewer. *)
Definition slice_last {A : Type} (n : nat) (l : list A) : list A :=
  drop (length l - n) l.

Definition render_entry (entry : LogEntry) : LogDiv :=
  {| className := "log-entry " ++ type entry;
     div_innerHTML :=
       JSString.newline ++ "            <span class=" ++ JSString.dquote
       ++ "log-timestamp" ++ JSString.dquote ++ ">" ++ timestamp entry ++ "</span>"
       ++ JSString.newline ++ "            " ++ message entry
       ++ JSString.newline ++ "        " |}.

Definition updateResultsLog (logEntries : option (list LogEntry)) (p : Page) : Page :=
  match logEntries with
  | None | Some [] => p
  | Some entries =>
      let recentEntries := slice_last 50 entries in
      (* resultsLog.innerHTML = '', then one appendChild per entry *)
      let p := fold_left (fun p entry =>
                            set_resultsLog (resultsLog p ++ [render_entry entry]) p)
                         recentEntries (set_resultsLog [] p) in
      set_scrollTop (ScrollHeightOf (resultsLog p)) p
  end.

Definition showDownloadSection (p : Page) : Page :=
  set_downloadBtn_onclick (set_display downloadSection "block" p).

Definition completeProcessing (s : State) : State :=
  on_page (fun p =>
    showDownloadSection
      (set_width progressFill "100%"
        (set_content progressText (textContent "Processing complete!")
          (set_display stopBtn "none"
            (set_display processBtn "inline-block" p)))))
    (set_isProcessing false (clearInterval_processingInterval s)).

Definition updateProgress_settled (r : Fetched Status) (s : State) : State :=
  match r with
  | Parsed ok status =>
      if ok then
        let s := on_page (fun p =>
                   updateResultsLog (results_log status)
                     (updateProgressDisplay status p)) s in
        if processing_complete status then completeProcessing s else s
      else s
  | Rejected msg | Unparsable _ msg =>
      on_page (console_error ("Failed to update progress: " ++ msg)) s
  end.

(** ** The event loop

    Between two awaits the script runs alone.  The world is the state of
    the controller and the requests sent and not yet settled; an event is a
    user action, a tick of a live interval timer, or the settling of a
    request in flight. *)

Global Instance Config_eq_dec : EqDecision Config.
Proof. solve_decision. Defined.

Global Instance request_eq_dec : EqDecision request.
Proof. solve_decision. Defined.

Record World := {
  state : State;
  in_flight : list request }.

Inductive event : Type :=
| FileChosen (file_name : string)
| ColumnChosen (sel : select) (v : string)
| ProcessClicked
| StopClicked
| Tick (h : nat)
| UploadSettled (file_name : string) (r : Fetched UploadResult)
| ProcessSettled (config : Config) (r : Fetched ProcessResult)
| StatusSettled (sid : string) (r : Fetched Status)
| StopSettled (sid : string) (r : StopOutcome).

(** Take one occurrence of [x] out of [l], if there is one. *)
Fixpoint take_out (x : request) (l : list request) : option (list request) :=
  match l with
  | [] => None
  | y :: l' =>
      if decide (y = x) then Some l'
      else option_map (cons y) (take_out x l')
  end.

(** A call: the state moves on and the requests it sent are in flight. *)
Definition call (f : State -> State * list request) (w : World) : World :=
  {| state := fst (f (state w));
     in_flight := in_flight w ++ snd (f (state w)) |}.

(** A continuation: it runs when its request, which was in flight, settles. *)
Definition settle (req : request) (k : State -> State) (w : World) : option World :=
  match take_out req (in_flight w) with
  | Some rest => Some {| state := k (state w); in_flight := rest |}
  | None => None
  end.

(** The user picks an option of a select. *)
Definition choose (sel : select) (v : string) (p : Page) : Page :=
  set_value (<[sel := v]> (value p)) p.

(** One event; [None] when it cannot happen in this world. *)
Definition step (w : World) (ev : event) : option World :=
  match ev with
  | FileChosen file_name => Some (call (handleFileUpload file_name) w)
  | ColumnChosen sel v =>
      if bool_decide (v ∈ options (page (state w)) sel)
      then Some {| state := on_page (choose sel v) (state w);
                   in_flight := in_flight w |}
      else None
  | ProcessClicked => Some (call processFile w)
  | StopClicked => Some (call stopProcessing w)
  | Tick h =>
      if bool_decide (h ∈ intervals (state w))
      then Some (call updateProgress w) else None
  | UploadSettled file_name r =>
      settle (PostUpload file_name) (handleFileUpload_settled r) w
  | ProcessSettled config r =>
      settle (PostProcess config) (processFile_settled r) w
  | StatusSettled sid r =>
      settle (GetStatus sid) (updateProgress_settled r) w
  | StopSettled sid r =>
      settle (PostStop sid) (stopProcessing_settled r) w
  end.

Fixpoint run (w : World) (evs : list event) : option World :=
  match evs with
  | [] => Some w
  | ev :: evs' =>
      match step w ev with
      | Some w' => run w' evs'
      | None => None
      end
  end.

Definition initial_world : World :=
  {| state := initial_state; in_flight := [] |}.

(** The event starts a polling loop: a [/process] request settles with a
    2xx response, and [startProcessing] runs. *)
Definition is_launch (ev : event) : bool :=
  match ev with
  | ProcessSettled _ (Parsed true _) => true
  | _ => false
  end.

(** Along the events, a polling loop is only started while no processing is
    active. *)
Fixpoint launches_when_idle (w : World) (evs : list event) : bool :=
  match evs with
  | [] => true
  | ev :: evs' =>
      (negb (is_launch ev) || negb (isProcessing (state w)))
      && match step w ev with
         | Some w' => launches_when_idle w' evs'
         | None => true
         end
  end.

(** Every live timer is the one [processingInterval] holds, and none is
    live unless processing is active. *)
Definition timer_tracked (s : State) : Prop :=
  (forall h, h ∈ intervals s -> processingInterval s = Some h)
  /\ (isProcessing s = false -> intervals s = ∅).

(** The state reached from the page as loaded. *)
Definition final_state (evs : list event) : option State :=
  option_map state (run initial_world evs).

(** The three globals and the live timers of a state. *)
Definition globals (s : State) : option string * option nat * bool * gset nat :=
  (currentSessionId s, processingInterval s, isProcessing s, intervals s).

(** ** The words of the specification *)

(** The file name ends in [.csv], in upper or lower case letters. *)
Definition has_csv_extension (file_name : string) : Prop :=
  exists (stem : string) (c s v : ascii),
    file_name = (stem ++ String "." (String c (String s (String v ""))))%string
    /\ (c = "c" \/ c = "C")%char
    /\ (s = "s" \/ s = "S")%char
    /\ (v = "v" \/ v = "V")%char.

(** The number of selects that hold a binding: a non-empty value. *)
Definition bound_fields (p : Page) : nat :=
  length (filter (fun sel => value p sel <> "")
                 [addressColumn; cityColumn; stateColumn; zipColumn]).

(** A fetch that settles as a failure: rejected, unparsable, or not 2xx. *)
Definition is_failure {A : Type} (r : Fetched A) : bool :=
  match r with
  | Parsed true _ => false
  | _ => true
  end.

(** The success rate: the successful count over the sum of both counts, as
    a percentage rounded to the nearest whole number, a half going up;
    [0] when both counts are [0]. *)
Definition exact_rate (successful failed : Z) : Z :=
  let total := (successful + failed)%Z in
  if (0 <? total)%Z then ((200 * successful + total) / (2 * total))%Z else 0%Z.

(** ** The kernel's floats, to compare the model of numbers with *)

(** A double of the model as the Standard Library writes one. *)
Definition to_spec_float (x : Binary64.float) : SpecFloat.spec_float :=
  match Binary64.mant x with
  | Z0 => SpecFloat.S754_zero false
  | Zpos m => SpecFloat.S754_finite false m (Binary64.expo x)
  | Zneg m => SpecFloat.S754_finite true m (Binary64.expo x)
  end.

(** [(s / t) * 100] by the kernel's binary64 arithmetic. *)
Definition primitive_percentage (s t : Z) : SpecFloat.spec_float :=
  FloatOps.Prim2SF
    (PrimFloat.mul
       (PrimFloat.div (PrimFloat.of_uint63 (Uint63.of_Z s))
                      (PrimFloat.of_uint63 (Uint63.of_Z t)))
       (PrimFloat.of_uint63 (Uint63.of_Z 100))).

(** [n / d] by the kernel's binary64 arithmetic. *)
Definition primitive_quotient (n d : Z) : SpecFloat.spec_float :=
  FloatOps.Prim2SF
    (PrimFloat.div (PrimFloat.of_uint63 (Uint63.of_Z n))
                   (PrimFloat.of_uint63 (Uint63.of_Z d))).

(** The same sign, mantissa and exponent. *)
Definition same_float (x y : SpecFloat.spec_float) : bool :=
  match x, y with
  | SpecFloat.S754_zero a, SpecFloat.S754_zero b => Bool.eqb a b
  | SpecFloat.S754_finite a m e, SpecFloat.S754_finite b m' e' =>
      Bool.eqb a b && Pos.eqb m m' && Z.eqb e e'
  | _, _ => false
  end.

(** All pairs [(s, t)] with [1 <= s <= t <= n]. *)
Definition pairs_up_to (n : nat) : list (Z * Z) :=
  flat_map (fun t => map (fun s => (Z.of_nat s, Z.of_nat t)) (seq 1 t)) (seq 1 n).

(** ** Sample data *)

(** A snapshot with the two counts and nothing else of interest. *)
Definition counts (successful failed : Z) : Status :=
  {| progress_percent := None; current_address := None;
     total_processed := Some (successful + failed);
     successful_geocodes := Some successful;
     failed_geocodes := Some failed;
     processing_complete := false; results_log := None |}.


Definition sample_upload : UploadResult :=
  {| session_id := Some "s1"; filename := "addresses.csv";
     headers := ["Street Address"; "City"; "State"; "Zip"];
     upload_error := None |}.

Definition sample_config : Config :=
  {| cfg_session_id := "s1"; address_column := "Street Address";
     city_column := "City"; state_column := "State"; zip_column := "Zip" |}.

Definition process_ack : Fetched ProcessResult :=
  Parsed true {| process_error := None |}.

(** A snapshot in the middle of a run: 1 of 10 rows done. *)
Definition sample_progress : Status :=
  {| progress_percent := Some 10; current_address := None;
     total_processed := Some 1; successful_geocodes := Some 1;
     failed_geocodes := Some 0; processing_complete := false;
     results_log := None |}.

(** The last snapshot of a run: 7 rows located, 3 not. *)
Definition sample_complete : Status :=
  {| progress_percent := Some 100; current_address := None;
     total_processed := Some 10; successful_geocodes := Some 7;
     failed_geocodes := Some 3; processing_complete := true;
     results_log := None |}.

(** A log of [n] entries that differ. *)
Definition sample_log (n : nat) : list LogEntry :=
  map (fun i => {| timestamp := JSString.of_Z (Z.of_nat i);
                   message := "row " ++ JSString.of_Z (Z.of_nat i);
                   type := "success" |}) (seq 0 n).

(** A session [s1] whose polling loop has just started. *)
Definition running_state : State :=
  startProcessing (set_currentSessionId (Some "s1") initial_state).

(** Upload [addresses.csv], then press the process button. *)
Definition upload_and_click : list event :=
  [FileChosen "addresses.csv";
   UploadSettled "addresses.csv" (Parsed true sample_upload);
   ProcessClicked].

(** ... the server accepts, and polling starts. *)
Definition launch : list event :=
  upload_and_click ++ [ProcessSettled sample_config process_ack].

(** The first tick sends its request, the user stops, and the server
    confirms the stop before the status arrives. *)
Definition stop_during_poll : list event :=
  launch ++ [Tick 1; StopClicked; StopSettled "s1" (StopResponse true)].

(** Start, stop, and start again. *)
Definition start_stop_start : list event :=
  launch ++ [StopClicked; StopSettled "s1" (StopResponse true);
             ProcessClicked; ProcessSettled sample_config process_ack].

(** The process button pressed twice before the server answers. *)
Definition double_launch : list event :=
  upload_and_click
  ++ [ProcessClicked;
      ProcessSettled sample_config process_ack;
      ProcessSettled sample_config process_ack].

(** ** The rest of the script *)

(** *** Drag and drop, and the file input

    [uploadArea.classList] is touched by the drag handlers alone; a file is
    its name, as for [handleFileUpload]. *)

Definition handleDragOver (classes : gset string) : gset string :=
  {[ "dragover" ]} ∪ classes.

Definition handleDragLeave (classes : gset string) : gset string :=
  classes ∖ {[ "dragover" ]}.

(** [e.dataTransfer.files], and what [handleFileUpload(files[0])] does up
    to its await. *)
Definition handleDrop (files : list string) (classes : gset string) (s : State)
    : gset string * (State * list request) :=
  (classes ∖ {[ "dragover" ]},
   match files with
   | file :: _ => handleFileUpload file s
   | [] => (s, [])
   end).

(** [e.target.files[0]] is [undefined] for an empty list. *)
Definition handleFileSelect (files : list string) (s : State)
    : State * list request :=
  match files with
  | file :: _ => handleFileUpload file s
  | [] => (s, [])
  end.

(** *** Leaving the page, and the download button *)

(** The [beforeunload] listener: the text it puts in [e.returnValue], if it
    asks at all. *)
Definition beforeunload (s : State) : option string :=
  if isProcessing s
  then Some "Processing is still running. Are you sure you want to leave?"
  else None.

(** A click on [downloadBtn]: nothing without a handler, else
    [window.location.href] becomes [/download/] followed by
    [currentSessionId] as the variable holds it at the click. *)
Inductive clicked : Type :=
| NoHandler
| Download (session : option string).

Definition downloadBtn_click (s : State) : clicked :=
  if downloadBtn_onclick (page s) then Download (currentSessionId s)
  else NoHandler.

(** *** [formatDuration] *)



(** *** Predicates on states and pages *)

(** No live timer has a handle [setInterval] has yet to hand out. *)
Definition handles_fresh (s : State) : Prop :=
  forall h, h ∈ intervals s -> (h < next_interval s)%nat.

(** While processing is active, the timer [processingInterval] holds is live. *)
Definition polling_held (s : State) : Prop :=
  isProcessing s = true ->
  exists h, processingInterval s = Some h /\ h ∈ intervals s.

(** The download section is shown and its button has a handler. *)
Definition download_shown (s : State) : Prop :=
  display (page s) downloadSection = "block"
  /\ downloadBtn_onclick (page s) = true.


(** The text of the alert a failed upload or launch shows. *)
Definition upload_failure_text (r : Fetched UploadResult) : string :=
  match r with
  | Rejected msg | Unparsable _ msg => "Error: Upload failed: " ++ msg
  | Parsed _ result => "Error: " ++ or_string (upload_error result) "Upload failed"
  end.

Definition launch_failure_text (r : Fetched ProcessResult) : string :=
  match r with
  | Rejected msg | Unparsable _ msg => "Error: Processing failed: " ++ msg
  | Parsed _ result =>
      "Error: " ++ or_string (process_error result) "Processing failed to start"
  end.

(** *** More sample data *)

(** A run to its completion snapshot. *)
Definition run_to_completion : list event :=
  launch ++ [Tick 1; StatusSettled "s1" (Parsed true sample_complete)].

(** A second file, uploaded and launched. *)
Definition second_upload : UploadResult :=
  {| session_id := Some "s2"; filename := "more.csv";
     headers := ["addr"; "Town"; "ST"; "Postal Code"];
     upload_error := None |}.

Definition upload_again : list event :=
  [FileChosen "more.csv";
   UploadSettled "more.csv" (Parsed true second_upload)].

(** After the double launch, a confirmed stop. *)
Definition stop_after_double_launch : list event :=
  [StopClicked; StopSettled "s1" (StopResponse true)].

(** After the double launch, a tick of the held timer and its snapshot,
    which reports completion. *)
Definition completion_after_double_launch : list event :=
  double_launch ++ [Tick 2; StatusSettled "s1" (Parsed true sample_complete)].

(** * Proofs *)

(** ** Upload: the extension check *)

Module JSStringFacts.
Import JSString.

Ltac app_simpl :=
  repeat first
    [ progress change (String.append EmptyString ?x) with x in *
    | progress change (String.append (String ?c ?a) ?x)
        with (String c (String.append a x)) in * ].

Lemma length_append (a b : string) :
  String.length (a ++ b) = (String.length a + String.length b)%nat.
Proof. induction a as [|c a IH]; simpl; [reflexivity | now rewrite IH]. Qed.

Lemma substring_whole (s : string) : substring 0 (String.length s) s = s.
Proof. induction s as [|c s IH]; simpl; [reflexivity | now rewrite IH]. Qed.

Lemma substring_after (stem suffix : string) :
  substring (String.length stem) (String.length suffix) (stem ++ suffix) = suffix.
Proof. induction stem as [|c stem IH]; simpl; [apply substring_whole | exact IH]. Qed.

(** Any string splits at any position within it. *)
Lemma split_at (s : string) (k : nat) :
  (k <= String.length s)%nat ->
  exists stem, s = (stem ++ substring k (String.length s - k) s)%string
               /\ String.length stem = k.
Proof.
  revert k. induction s as [|c s IH]; intros k Hk.
  - exists "". simpl in Hk. assert (k = O) by lia. subst. now simpl.
  - destruct k as [|k].
    + exists "". split; [|reflexivity].
      now rewrite Nat.sub_0_r, substring_whole.
    + simpl in Hk. destruct (IH k) as (stem & Hs & Hl); [lia|].
      exists (String c stem). split; [|simpl; now f_equal].
      change (String.length (String c s) - S k)%nat with (String.length s - k)%nat.
      change (substring (S k) ?m (String c s)) with (substring k m s).
      change (String c s = String c (stem ++ substring k (String.length s - k) s)).
      now rewrite <- Hs.
Qed.

Lemma endsWith_spec (s suffix : string) :
  endsWith s suffix = true <-> exists stem, s = (stem ++ suffix)%string.
Proof.
  unfold endsWith. split.
  - destruct (Nat.leb_spec (String.length suffix) (String.length s)) as [Hle|]; [|discriminate].
    intros H%String.eqb_eq.
    destruct (split_at s (String.length s - String.length suffix)) as (stem & Hs & _); [lia|].
    exists stem. rewrite Hs at 1. f_equal. rewrite <- H at 3. f_equal. lia.
  - intros (stem & ->). rewrite length_append.
    destruct (Nat.leb_spec (String.length suffix) (String.length stem + String.length suffix)); [|lia].
    replace (String.length stem + String.length suffix - String.length suffix)%nat
      with (String.length stem) by lia.
    rewrite substring_after. apply String.eqb_refl.
Qed.

Lemma toLowerCase_append (a b : string) :
  toLowerCase (a ++ b) = (toLowerCase a ++ toLowerCase b)%string.
Proof. induction a as [|c a IH]; simpl; [reflexivity | now rewrite IH]. Qed.

(** A lower-cased string that splits comes from a string that splits
    the same way. *)
Lemma toLowerCase_split (s a b : string) :
  toLowerCase s = (a ++ b)%string ->
  exists a' b', s = (a' ++ b')%string /\ toLowerCase a' = a /\ toLowerCase b' = b.
Proof.
  revert a. induction s as [|c s IH]; intros a H.
  - destruct a; [|discriminate]. app_simpl. exists "", "". now rewrite <- H.
  - destruct a as [|d a].
    + exists "", (String c s). app_simpl. now rewrite <- H.
    + app_simpl. simpl in H. injection H as Hc Hs.
      destruct (IH a Hs) as (a' & b' & -> & Ha & Hb).
      exists (String c a'), b'. app_simpl. simpl. now rewrite Hc, Ha.
Qed.

Lemma lower_ascii_dot (c : ascii) : lower_ascii c = "."%char -> c = "."%char.
Proof. destruct c as [[] [] [] [] [] [] [] []]; vm_compute; congruence. Qed.

Lemma lower_ascii_c (c : ascii) : lower_ascii c = "c"%char -> (c = "c" \/ c = "C")%char.
Proof. destruct c as [[] [] [] [] [] [] [] []]; vm_compute; intros; try congruence; auto. Qed.

Lemma lower_ascii_s (c : ascii) : lower_ascii c = "s"%char -> (c = "s" \/ c = "S")%char.
Proof. destruct c as [[] [] [] [] [] [] [] []]; vm_compute; intros; try congruence; auto. Qed.

Lemma lower_ascii_v (c : ascii) : lower_ascii c = "v"%char -> (c = "v" \/ c = "V")%char.
Proof. destruct c as [[] [] [] [] [] [] [] []]; vm_compute; intros; try congruence; auto. Qed.

(** The test of line 68 is the extension check, whatever the case. *)
Lemma csv_test_spec (file_name : string) :
  endsWith (toLowerCase file_name) ".csv" = true <-> has_csv_extension file_name.
Proof.
  rewrite endsWith_spec. split.
  - intros (stem & H). apply toLowerCase_split in H as (a & b & -> & _ & Hb).
    destruct b as [|c0 [|c1 [|c2 [|c3 [|c4 b]]]]]; try discriminate.
    simpl in Hb. injection Hb as H0 H1 H2 H3.
    apply lower_ascii_dot in H0 as ->.
    exists a, c1, c2, c3. repeat split; auto using lower_ascii_c, lower_ascii_s, lower_ascii_v.
  - intros (stem & c & s & v & -> & Hc & Hs & Hv).
    exists (toLowerCase stem). rewrite toLowerCase_append. f_equal.
    destruct Hc as [-> | ->], Hs as [-> | ->], Hv as [-> | ->]; reflexivity.
Qed.

End JSStringFacts.

(** C6: a file is accepted exactly when its name ends in [.csv], in
    whatever case: then, and only then, the upload request is sent.  Any
    other file gets the alert and sends nothing.  [FILE.CSV] is accepted,
    [file.txt] is not. *)
Theorem handleFileUpload_checks_extension (file_name : string) (s : State) :
  (has_csv_extension file_name <->
     snd (handleFileUpload file_name s) = [PostUpload file_name])
  /\ (~ has_csv_extension file_name ->
      handleFileUpload file_name s
      = (on_page (alert "Error: Please select a CSV file.") s, []))
  /\ snd (handleFileUpload "FILE.CSV" s) = [PostUpload "FILE.CSV"]
  /\ handleFileUpload "file.txt" s
     = (on_page (alert "Error: Please select a CSV file.") s, []).
Proof.
  pose proof (JSStringFacts.csv_test_spec file_name) as Hspec.
  unfold handleFileUpload.
  destruct (JSString.endsWith (JSString.toLowerCase file_name) ".csv") eqn:E; simpl.
  - split; [|split; [|split]]; try reflexivity.
    + split; [reflexivity | intros _; now apply Hspec].
    + intros H. destruct H. now apply Hspec.
  - split; [|split; [|split]]; try reflexivity.
    split; [|discriminate].
    intros H. apply Hspec in H. discriminate.
Qed.

Lemma truthy_spec (x : string) : JSString.truthy x = true <-> x <> "".
Proof.
  unfold JSString.truthy. destruct (String.eqb_spec x ""); simpl; split; congruence.
Qed.

Lemma mapping_complete_spec (c : Config) :
  mapping_complete c = true
  <-> address_column c <> "" /\ city_column c <> ""
      /\ state_column c <> "" /\ zip_column c <> "".
Proof.
  unfold mapping_complete. rewrite <- !truthy_spec.
  destruct (JSString.truthy (address_column c)), (JSString.truthy (city_column c)),
    (JSString.truthy (state_column c)), (JSString.truthy (zip_column c));
    simpl; intuition congruence.
Qed.

Lemma bound_fields_spec (p : Page) (sid : string) :
  mapping_complete (read_config sid p) = true <-> bound_fields p = 4%nat.
Proof.
  rewrite mapping_complete_spec. unfold bound_fields, read_config. simpl.
  rewrite !filter_cons, filter_nil.
  repeat case_decide; simpl; intuition (congruence || lia).
Qed.

(** C7: the mapping passes the test of [processFile] exactly when the four
    bindings are non-empty strings.  With fewer than four fields bound no
    request is sent, and with a session the alert asks for the mappings;
    with four bound and a session, the one request carries the bindings. *)
Theorem processFile_validates_mapping (s : State) (sid : string) :
  let config := read_config sid (page s) in
  (mapping_complete config = true
   <-> address_column config <> "" /\ city_column config <> ""
       /\ state_column config <> "" /\ zip_column config <> "")
  /\ ((bound_fields (page s) < 4)%nat ->
      mapping_complete config = false
      /\ snd (processFile s) = []
      /\ (has_session s = Some sid ->
          fst (processFile s)
          = on_page (alert "Error: Please select all column mappings") s))
  /\ (bound_fields (page s) = 4%nat ->
      mapping_complete config = true
      /\ (has_session s = Some sid -> processFile s = (s, [PostProcess config]))).
Proof.
  intros config. split; [apply mapping_complete_spec|].
  pose proof (bound_fields_spec (page s)) as Hb.
  unfold processFile. split.
  - intros Hlt.
    assert (Hc : forall sid', mapping_complete (read_config sid' (page s)) = false).
    { intros sid'. destruct (mapping_complete _) eqn:E; [|reflexivity].
      apply Hb in E. lia. }
    split; [apply Hc|]. split.
    + destruct (has_session s); [rewrite Hc|]; reflexivity.
    + intros ->. now rewrite Hc.
  - intros H4. assert (Hc : mapping_complete config = true) by now apply Hb.
    split; [exact Hc|]. intros ->. fold config. now rewrite Hc.
Qed.

Section LogReconciler.

(** The loop of lines 270-278 appends one [div] per entry, in order, and
    touches nothing else. *)
Lemma append_entries (entries : list LogEntry) (p : Page) :
  fold_left (fun p entry => set_resultsLog (resultsLog p ++ [render_entry entry]) p)
            entries p
  = set_resultsLog (resultsLog p ++ map render_entry entries) p.
Proof.
  revert p. induction entries as [|e entries IH]; intros p; simpl.
  - rewrite app_nil_r. now destruct p.
  - rewrite IH. unfold set_resultsLog. simpl. now rewrite <- app_assoc.
Qed.

Lemma updateResultsLog_nonempty (entries : list LogEntry) (p : Page) :
  entries <> [] ->
  updateResultsLog (Some entries) p
  = set_scrollTop (ScrollHeightOf (map render_entry (slice_last 50 entries)))
      (set_resultsLog (map render_entry (slice_last 50 entries)) p).
Proof.
  intros Hne. unfold updateResultsLog.
  destruct entries as [|e es]; [congruence|].
  rewrite append_entries. reflexivity.
Qed.

Lemma slice_last_spec {A : Type} (n : nat) (l : list A) :
  exists older, l = older ++ slice_last n l
                /\ length (slice_last n l) = Nat.min (length l) n.
Proof.
  unfold slice_last. exists (take (length l - n) l). split.
  - symmetry. apply take_drop.
  - rewrite length_drop. lia.
Qed.

End LogReconciler.

(** C9: a non-empty log of [n] entries is shown as [min n 50] divs, which
    render the last [min n 50] entries in their order. *)
Theorem updateResultsLog_shows_last_50 (entries : list LogEntry) (p : Page) :
  entries <> [] ->
  exists older recent,
    entries = older ++ recent
    /\ length recent = Nat.min (length entries) 50
    /\ resultsLog (updateResultsLog (Some entries) p) = map render_entry recent
    /\ length (resultsLog (updateResultsLog (Some entries) p))
       = Nat.min (length entries) 50.
Proof.
  intros Hne. destruct (slice_last_spec 50 entries) as (older & Hsplit & Hlen).
  exists older, (slice_last 50 entries).
  rewrite updateResultsLog_nonempty by exact Hne. simpl.
  rewrite length_map. auto.
Qed.

Lemma updateResultsLog_shows_last_50_witness :
  sample_log 200 <> []
  /\ exists older recent,
      sample_log 200 = older ++ recent
      /\ length recent = Nat.min (length (sample_log 200)) 50
      /\ resultsLog (updateResultsLog (Some (sample_log 200)) initial_page)
         = map render_entry recent
      /\ length (resultsLog (updateResultsLog (Some (sample_log 200)) initial_page))
         = Nat.min (length (sample_log 200)) 50.
Proof.
  assert (H : sample_log 200 <> []) by (vm_compute; discriminate).
  split; [exact H|].
  exact (updateResultsLog_shows_last_50 (sample_log 200) initial_page H).
Defined.

(** A log of 200 entries shows its entries 150 to 199. *)
Example updateResultsLog_200 :
  resultsLog (updateResultsLog (Some (sample_log 200)) initial_page)
  = map render_entry (drop 150 (sample_log 200))
  /\ length (resultsLog (updateResultsLog (Some (sample_log 200)) initial_page)) = 50%nat.
Proof. vm_compute. split; reflexivity. Qed.

(** C10: a log that is [null], [undefined] or empty leaves the page as it
    is, the entries shown and the scroll position included. *)
Theorem updateResultsLog_ignores_empty (p : Page) :
  updateResultsLog None p = p /\ updateResultsLog (Some []) p = p.
Proof. split; reflexivity. Qed.

(** ** The polling loop

    What each handler does to the globals and to the live timers. *)

Lemma handleFileUpload_globals (file_name : string) (s : State) :
  globals (fst (handleFileUpload file_name s)) = globals s.
Proof. unfold handleFileUpload. now destruct (negb _). Qed.

Lemma processFile_globals (s : State) : globals (fst (processFile s)) = globals s.
Proof.
  unfold processFile. destruct (has_session s); [|reflexivity].
  now destruct (negb _).
Qed.

Lemma stopProcessing_globals (s : State) : fst (stopProcessing s) = s.
Proof. unfold stopProcessing. now destruct (has_session s). Qed.

Lemma updateProgress_state (s : State) : fst (updateProgress s) = s.
Proof.
  unfold updateProgress. destruct (has_session s); [|reflexivity].
  now destruct (isProcessing s).
Qed.

(** An upload never touches the polling loop. *)
Lemma handleFileUpload_settled_polling (r : Fetched UploadResult) (s : State) :
  let s' := handleFileUpload_settled r s in
  processingInterval s' = processingInterval s
  /\ isProcessing s' = isProcessing s
  /\ intervals s' = intervals s.
Proof.
  destruct r as [msg | ok msg | [] result]; cbv zeta; simpl;
    unfold hideLoading; destruct (isProcessing s) eqn:E; simpl; rewrite ?E; auto.
Qed.

(** ** Terminal transitions *)

Lemma clearInterval_tracked (s : State) :
  (forall h, h ∈ intervals s -> processingInterval s = Some h) ->
  intervals (clearInterval_processingInterval s) = ∅.
Proof.
  intros H. simpl. destruct (processingInterval s) as [h|] eqn:E.
  - apply set_eq. intros h'. split; [|set_solver].
    intros [Hin Hne]%elem_of_difference. apply H in Hin. set_solver.
  - apply set_eq. intros h'. split; [|set_solver].
    intros Hin. apply H in Hin. discriminate.
Qed.

Lemma tracked_size (s : State) :
  timer_tracked s -> (size (intervals s) <= 1)%nat.
Proof.
  intros [H _]. destruct (processingInterval s) as [h|] eqn:E.
  - rewrite <- (size_singleton (C := gset nat) h). apply subseteq_size.
    intros h' Hin. apply H in Hin. set_solver.
  - replace (intervals s) with (∅ : gset nat); [rewrite size_empty; lia|].
    symmetry. apply set_eq. intros h'. split; [|set_solver].
    intros Hin. apply H in Hin. discriminate.
Qed.

Lemma completeProcessing_tracked (s : State) :
  timer_tracked s -> timer_tracked (completeProcessing s).
Proof.
  intros [H _]. pose proof (clearInterval_tracked s H) as He.
  unfold timer_tracked. simpl in *. rewrite He. split; [set_solver | reflexivity].
Qed.

Lemma startProcessing_tracked (s : State) :
  isProcessing s = false -> timer_tracked s -> timer_tracked (startProcessing s).
Proof.
  intros Hidle [_ H]. specialize (H Hidle).
  unfold timer_tracked. simpl. rewrite H. split; [|discriminate].
  intros h [Hin%elem_of_singleton | Hin%not_elem_of_empty]%elem_of_union;
    [now subst | contradiction].
Qed.

Lemma stopProcessing_settled_tracked (r : StopOutcome) (s : State) :
  timer_tracked s -> timer_tracked (stopProcessing_settled r s).
Proof.
  intros Ht. destruct r as [msg | []]; simpl; [exact Ht | | exact Ht].
  destruct Ht as [H _]. pose proof (clearInterval_tracked s H) as He.
  unfold timer_tracked. simpl in *. rewrite He. split; [set_solver | reflexivity].
Qed.

Lemma updateProgress_settled_tracked (r : Fetched Status) (s : State) :
  timer_tracked s -> timer_tracked (updateProgress_settled r s).
Proof.
  intros Ht. destruct r as [msg | ok msg | [] status]; simpl; try exact Ht.
  destruct (processing_complete status); [|exact Ht].
  apply (completeProcessing_tracked (on_page _ s)). exact Ht.
Qed.

Lemma processFile_settled_tracked (r : Fetched ProcessResult) (s : State) :
  (is_failure r = false -> isProcessing s = false) ->
  timer_tracked s -> timer_tracked (processFile_settled r s).
Proof.
  intros Hidle Ht. destruct r as [msg | ok msg | [] result]; simpl; try exact Ht.
  apply startProcessing_tracked; auto.
Qed.

Lemma tracked_globals (s s' : State) :
  globals s' = globals s -> timer_tracked s -> timer_tracked s'.
Proof. unfold globals, timer_tracked. intros [= _ -> -> ->]. auto. Qed.

Lemma settle_inv (req : request) (k : State -> State) (w w' : World) :
  settle req k w = Some w' -> state w' = k (state w).
Proof.
  unfold settle. destruct (take_out req (in_flight w)); [|discriminate].
  now intros [= <-].
Qed.

(** One event keeps the timers tracked, unless it starts a polling loop
    on top of a running one. *)
Lemma step_tracked (w w' : World) (ev : event) :
  step w ev = Some w' ->
  (is_launch ev = true -> isProcessing (state w) = false) ->
  timer_tracked (state w) -> timer_tracked (state w').
Proof.
  intros Hstep Hidle Ht. destruct ev; simpl in Hstep.
  - injection Hstep as <-. simpl.
    eapply tracked_globals; [apply handleFileUpload_globals | exact Ht].
  - destruct (bool_decide _); [|discriminate]. injection Hstep as <-. exact Ht.
  - injection Hstep as <-. simpl.
    eapply tracked_globals; [apply processFile_globals | exact Ht].
  - injection Hstep as <-. simpl. now rewrite stopProcessing_globals.
  - destruct (bool_decide _); [|discriminate]. injection Hstep as <-. simpl.
    now rewrite updateProgress_state.
  - apply settle_inv in Hstep. rewrite Hstep.
    destruct (handleFileUpload_settled_polling r (state w)) as (Hp & Hi & Hl).
    destruct Ht as [H1 H2]. split.
    + intros h. rewrite Hl, Hp. apply H1.
    + rewrite Hl, Hi. apply H2.
  - apply settle_inv in Hstep. rewrite Hstep.
    apply processFile_settled_tracked; [|exact Ht].
    intros Hr. apply Hidle. now destruct r as [| |[] ?].
  - apply settle_inv in Hstep. rewrite Hstep.
    now apply updateProgress_settled_tracked.
  - apply settle_inv in Hstep. rewrite Hstep.
    now apply stopProcessing_settled_tracked.
Qed.

Lemma run_tracked (evs : list event) (w w' : World) :
  run w evs = Some w' ->
  launches_when_idle w evs = true ->
  timer_tracked (state w) -> timer_tracked (state w').
Proof.
  revert w. induction evs as [|ev evs IH]; intros w Hrun Hidle Ht; simpl in *.
  - now injection Hrun as <-.
  - destruct (step w ev) as [w1|] eqn:Hstep; [|discriminate].
    apply andb_true_iff in Hidle as [Hev Hrest].
    apply (IH w1 Hrun Hrest).
    apply (step_tracked w w1 ev Hstep); [|exact Ht].
    intros Hl. rewrite Hl in Hev. simpl in Hev. now apply negb_true_iff in Hev.
Qed.

Lemma initial_tracked : timer_tracked initial_state.
Proof. split; [intros h Hin; set_solver | reflexivity]. Qed.

(** ** Polling: completion, failure, and a stop that races a poll *)

(** C3 (as amended): a 2xx snapshot with the completion flag set clears
    the timer of [processingInterval], ends processing, shows the download
    section and the completion text; a tick in the state reached sends
    nothing and changes nothing; and where the live timers were the one of
    [processingInterval], none is live afterwards, so no tick can occur. *)
Theorem completion_is_terminal (status : Status) (s : State) :
  processing_complete status = true ->
  let s' := updateProgress_settled (Parsed true status) s in
  isProcessing s' = false
  /\ intervals s'
     = match processingInterval s with
       | Some h => intervals s ∖ {[ h ]}
       | None => intervals s
       end
  /\ display (page s') downloadSection = "block"
  /\ downloadBtn_onclick (page s') = true
  /\ content_of (page s') progressText = textContent "Processing complete!"
  /\ updateProgress s' = (s', [])
  /\ ((forall h, h ∈ intervals s -> processingInterval s = Some h) ->
      intervals s' = ∅
      /\ forall (w : World) (h : nat), state w = s' -> step w (Tick h) = None).
Proof.
  intros Hc s'. subst s'. simpl. rewrite Hc.
  repeat split.
  - unfold updateProgress.
    destruct (has_session (completeProcessing _)); reflexivity.
  - exact (clearInterval_tracked s H).
  - intros w h Hw. simpl. rewrite Hw.
    pose proof (clearInterval_tracked s H) as He.
    simpl in He |- *. rewrite He.
    rewrite bool_decide_eq_false_2; [reflexivity | apply not_elem_of_empty].
Qed.

Lemma completion_is_terminal_witness :
  processing_complete sample_complete = true
  /\ isProcessing (updateProgress_settled (Parsed true sample_complete) running_state)
     = false
  /\ display (page (updateProgress_settled (Parsed true sample_complete)
                      running_state)) downloadSection = "block"
  /\ intervals (updateProgress_settled (Parsed true sample_complete) running_state)
     = ∅.
Proof.
  split; [reflexivity|].
  pose proof (completion_is_terminal sample_complete running_state eq_refl) as H.
  cbv zeta in H. destruct H as (H1 & _ & H3 & _ & _ & _ & H7).
  split; [exact H1|]. split; [exact H3|].
  apply H7. intros h Hin. simpl in Hin |- *.
  apply elem_of_union in Hin as [Hin%elem_of_singleton | Hin%not_elem_of_empty];
    [now subst | contradiction].
Defined.

(** C3 as stated fails: completion clears the timer it holds and no other.
    After a double launch the completion snapshot leaves timer 1 live, and
    its tick still occurs: the run goes on, and the tick sends nothing only
    because processing is no longer active.  After a single launch the same
    tick cannot occur. *)
Lemma tick_after_completion :
  option_map (fun s => (isProcessing s, processingInterval s,
                        elements (intervals s),
                        display (page s) downloadSection))
    (final_state completion_after_double_launch)
  = Some (false, Some 2%nat, [1%nat], "block")
  /\ option_map in_flight
       (run initial_world (completion_after_double_launch ++ [Tick 1%nat]))
     = Some []
  /\ option_map (fun s => (isProcessing s, elements (intervals s)))
       (final_state (completion_after_double_launch ++ [Tick 1%nat]))
     = Some (false, [1%nat])
  /\ option_map (fun s => isProcessing s)
       (final_state (run_to_completion ++ [Tick 1%nat]))
     = None.
Proof. repeat split; vm_compute; reflexivity. Qed.

(** C5 (as amended): a status fetch that fails changes neither the globals
    nor the live timers and shows no alert, so the next tick sends what
    this one sent; a rejected fetch or an unparsable body is logged to the
    console, a parsed body with a non-2xx status is dropped without a log. *)
Theorem poll_failure_is_ignored (r : Fetched Status) (s : State) :
  is_failure r = true ->
  let s' := updateProgress_settled r s in
  currentSessionId s' = currentSessionId s
  /\ processingInterval s' = processingInterval s
  /\ isProcessing s' = isProcessing s
  /\ intervals s' = intervals s
  /\ alerts (page s') = alerts (page s)
  /\ snd (updateProgress s') = snd (updateProgress s)
  /\ match r with
     | Rejected msg | Unparsable _ msg =>
         s' = on_page (console_error ("Failed to update progress: " ++ msg)) s
     | Parsed _ _ => s' = s
     end.
Proof.
  intros Hf s'. subst s'.
  destruct r as [msg | ok msg | [] status]; try discriminate; simpl;
    repeat split; unfold updateProgress, has_session; simpl;
    destruct (currentSessionId s) as [sid|]; try reflexivity;
    destruct (JSString.truthy sid); try reflexivity;
    destruct (isProcessing s); reflexivity.
Qed.

Lemma poll_failure_is_ignored_witness :
  is_failure (Rejected (A := Status) "Failed to fetch") = true
  /\ isProcessing (updateProgress_settled (Rejected "Failed to fetch") running_state)
     = true
  /\ intervals (updateProgress_settled (Rejected "Failed to fetch") running_state)
     = intervals running_state
  /\ snd (updateProgress
            (updateProgress_settled (Rejected "Failed to fetch") running_state))
     = [GetStatus "s1"].
Proof.
  split; [reflexivity|].
  pose proof (poll_failure_is_ignored (Rejected "Failed to fetch") running_state
                eq_refl) as H.
  cbv zeta in H. destruct H as (_ & _ & H3 & H4 & _ & H6 & _).
  split; [exact H3|]. split; [exact H4 | exact H6].
Defined.

(** C5 as stated fails: a 500 response with a JSON body reaches no
    [console.error]. *)
Lemma poll_non_2xx_is_not_logged :
  option_map (fun s => (isProcessing s, elements (intervals s),
                        console_errors (page s), alerts (page s)))
    (final_state (launch ++ [Tick 1%nat;
                             StatusSettled "s1" (Parsed false sample_progress)]))
  = Some (true, [1%nat], [], []).
Proof. vm_compute. reflexivity. Qed.

(** ** Stop *)

(** What a test of the page after a stop would look at. *)
Lemma stop_success (s : State) :
  let s' := stopProcessing_settled (StopResponse true) s in
  isProcessing s' = false
  /\ content_of (page s') progressText = textContent "Processing stopped by user"
  /\ display (page s') processBtn = "inline-block"
  /\ updateProgress s' = (s', []).
Proof.
  cbv zeta. simpl. repeat split.
  unfold updateProgress. now destruct (has_session _).
Qed.

(** No snapshot makes an idle controller active again. *)
Lemma snapshot_keeps_idle (r : Fetched Status) (s : State) :
  isProcessing s = false -> isProcessing (updateProgress_settled r s) = false.
Proof.
  intros H. destruct r as [msg | ok msg | [] status]; simpl; auto.
  now destruct (processing_complete status).
Qed.

(** Whatever the page showed, a 2xx snapshot leaves another text than the
    stop message in [progressText]. *)
Lemma snapshot_replaces_stop_message (status : Status) (s : State) :
  content_of (page (updateProgress_settled (Parsed true status) s)) progressText
  <> textContent "Processing stopped by user".
Proof.
  simpl. unfold updateProgressDisplay, assign_width.
  destruct (processing_complete status); [simpl; discriminate|].
  destruct (0 <=? or_zero (progress_percent status))%Z;
    destruct (results_log status) as [[|e es]|];
    destruct (current_address status) as [a|]; try destruct (JSString.truthy a);
    simpl.
  all: try rewrite append_entries; simpl.
  all: repeat (rewrite fn_lookup_insert_ne by discriminate).
  all: rewrite fn_lookup_insert; intros [= H]; lazy [String.append] in H;
    discriminate H.
Qed.

(** C4: a stop request answered with a non-2xx status leaves the whole
    state as it was, the alerts included: nothing is shown to the user.
    Only a rejected fetch shows an error. *)
Theorem stop_non_2xx_is_silent (s : State) :
  stopProcessing_settled (StopResponse false) s = s
  /\ forall msg : string,
       stopProcessing_settled (StopRejected msg) s
       = on_page (alert ("Error: Failed to stop processing: " ++ msg)) s.
Proof. split; reflexivity. Qed.

(** The same on a run: processing goes on, the timer stays, no alert. *)
Example stop_non_2xx_on_a_run :
  option_map (fun s => (isProcessing s, elements (intervals s), alerts (page s)))
    (final_state (launch ++ [StopClicked; StopSettled "s1" (StopResponse false)]))
  = Some (true, [1%nat], []).
Proof. vm_compute. reflexivity. Qed.

(** C1: the stop is confirmed while a status request is in flight; when
    that request settles, its snapshot is applied all the same.  A snapshot
    with the completion flag replaces the stop message by the completion
    message and shows the download section; any other replaces the stop
    message by the progress text. *)
Theorem late_snapshot_overrides_stop :
  option_map (fun s => (isProcessing s, content_of (page s) progressText,
                        display (page s) downloadSection))
    (final_state stop_during_poll)
  = Some (false, textContent "Processing stopped by user", "")
  /\ option_map (fun s => (isProcessing s, content_of (page s) progressText,
                           display (page s) downloadSection))
       (final_state (stop_during_poll
                     ++ [StatusSettled "s1" (Parsed true sample_complete)]))
     = Some (false, textContent "Processing complete!", "block")
  /\ option_map (fun s => (isProcessing s, content_of (page s) progressText,
                           display (page s) downloadSection))
       (final_state (stop_during_poll
                     ++ [StatusSettled "s1" (Parsed true sample_progress)]))
     = Some (false, textContent "Progress: 10%", "").
Proof. repeat split; vm_compute; reflexivity. Qed.

(** ** At most one timer *)

(** C2 (as amended): along events that start a polling loop only while no
    processing is active, at most one interval timer is live, it is the one
    [processingInterval] holds, and none is live while processing is not
    active. *)
Theorem at_most_one_timer (evs : list event) (s : State) :
  final_state evs = Some s ->
  launches_when_idle initial_world evs = true ->
  (size (intervals s) <= 1)%nat /\ timer_tracked s.
Proof.
  unfold final_state. intros Hrun Hidle.
  destruct (run initial_world evs) as [w|] eqn:Hw; [|discriminate].
  injection Hrun as <-.
  assert (Ht : timer_tracked (state w))
    by exact (run_tracked evs initial_world w Hw Hidle initial_tracked).
  split; [now apply tracked_size | exact Ht].
Qed.

Lemma at_most_one_timer_witness :
  exists s,
    final_state start_stop_start = Some s
    /\ launches_when_idle initial_world start_stop_start = true
    /\ (size (intervals s) <= 1)%nat.
Proof.
  assert (Hsome : is_Some (final_state start_stop_start)).
  { apply (bool_decide_unpack _). vm_compute. exact I. }
  destruct (final_state start_stop_start) as [s|] eqn:Hrun;
    [|destruct Hsome; discriminate].
  exists s. split; [reflexivity|].
  assert (Hidle : launches_when_idle initial_world start_stop_start = true)
    by (vm_compute; reflexivity).
  split; [exact Hidle|].
  exact (proj1 (at_most_one_timer start_stop_start s Hrun Hidle)).
Defined.

(** Start, stop, start: one timer is live at the end, the second one. *)
Example start_stop_start_timers :
  option_map (fun s => (elements (intervals s), processingInterval s, isProcessing s))
    (final_state start_stop_start)
  = Some ([2%nat], Some 2%nat, true).
Proof. vm_compute. reflexivity. Qed.

(** C2 as stated fails: [startProcessing] clears nothing, and a second
    launch on top of the first leaves two live timers, the first of them
    no longer held by any variable. *)
Lemma double_launch_two_timers :
  option_map (fun s => (elements (intervals s), processingInterval s))
    (final_state double_launch)
  = Some ([2%nat; 1%nat], Some 2%nat)
  /\ option_map (fun s => size (intervals s)) (final_state double_launch)
     = Some 2%nat.
Proof. split; vm_compute; reflexivity. Qed.

(** ** Numbers: what rounding to binary64 costs *)

Module Binary64Facts.
Import Binary64.
Local Open Scope Z_scope.

Lemma pow2_pos (k : Z) : 0 <= k -> 0 < 2 ^ k.
Proof. intros. apply Z.pow_pos_nonneg; lia. Qed.

Lemma rne_div_spec (n d : Z) :
  0 < d -> 2 * Z.abs (rne_div n d * d - n) <= d.
Proof.
  intros Hd. unfold rne_div.
  pose proof (Z.div_mod n d ltac:(lia)) as Hdm.
  pose proof (Z.mod_pos_bound n d Hd) as Hm.
  destruct (Z.ltb_spec (2 * (n mod d)) d);
    [|destruct (Z.ltb_spec d (2 * (n mod d))); [|destruct (Z.even (n / d))]]; lia.
Qed.

(** [2 ^ ilog2_ratio a b <= a / b] *)
Lemma ilog2_ratio_lower (a b : Z) :
  0 < a -> 0 < b ->
  b * 2 ^ Z.max 0 (ilog2_ratio a b) <= a * 2 ^ Z.max 0 (- ilog2_ratio a b).
Proof.
  intros Ha Hb. unfold ilog2_ratio.
  destruct (Z.log2_spec a Ha) as [Ha1 Ha2].
  destruct (Z.log2_spec b Hb) as [Hb1 Hb2].
  pose proof (Z.log2_nonneg a) as Hla. pose proof (Z.log2_nonneg b) as Hlb.
  set (la := Z.log2 a) in *. set (lb := Z.log2 b) in *.
  destruct (Z.ltb_spec (a * 2 ^ Z.max 0 (- (la - lb))) (b * 2 ^ Z.max 0 (la - lb)))
    as [Hlt | Hge]; [|exact Hge].
  destruct (Z_le_gt_dec 1 (la - lb)) as [Hd | Hd].
  - (* b * 2^(d-1) < 2^(lb+1) * 2^(d-1) = 2^la <= a *)
    rewrite (Z.max_r 0 (la - lb - 1)), (Z.max_l 0 (- (la - lb - 1))) by lia.
    rewrite Z.pow_0_r, Z.mul_1_r.
    pose proof (pow2_pos (la - lb - 1) ltac:(lia)) as Hp.
    assert (2 ^ Z.succ lb * 2 ^ (la - lb - 1) = 2 ^ la) as Heq.
    { rewrite <- Z.pow_add_r by lia. f_equal. lia. }
    nia.
  - (* b < 2^(lb+1) = 2^la * 2^(1-d) <= a * 2^(1-d) *)
    rewrite (Z.max_l 0 (la - lb - 1)), (Z.max_r 0 (- (la - lb - 1))) by lia.
    rewrite Z.pow_0_r, Z.mul_1_r.
    pose proof (pow2_pos (- (la - lb - 1)) ltac:(lia)) as Hp.
    assert (2 ^ la * 2 ^ (- (la - lb - 1)) = 2 ^ Z.succ lb) as Heq.
    { rewrite <- Z.pow_add_r by lia. f_equal. lia. }
    nia.
Qed.

(** A ratio below [2 ^ 50] rounds to a double with a negative exponent,
    within a relative error of [2 ^ -53]. *)
Lemma round_pos_spec (a b : Z) :
  0 < a -> 0 < b -> a < b * 2 ^ 50 ->
  exists m sh,
    round_pos a b = {| mant := m; expo := - sh |}
    /\ 0 < sh /\ 0 < m
    /\ 2 ^ 53 * Z.abs (m * b - a * 2 ^ sh) <= a * 2 ^ sh
    /\ 2 * Z.abs (m * b - a * 2 ^ sh) <= b.
Proof.
  intros Ha Hb Hsmall.
  pose proof (ilog2_ratio_lower a b Ha Hb) as Hlow.
  unfold round_pos, prec. set (k := ilog2_ratio a b) in *.
  assert (Hk : k < 50).
  { destruct (Z_lt_ge_dec k 50) as [|Hge]; [assumption|exfalso].
    rewrite (Z.max_r 0 k), (Z.max_l 0 (- k)), Z.pow_0_r in Hlow by lia.
    assert (2 ^ 50 <= 2 ^ k) by (apply Z.pow_le_mono_r; lia). nia. }
  replace (Z.max 0 (- (k - (53 - 1)))) with (52 - k) by lia.
  replace (Z.max 0 (k - (53 - 1))) with 0 by lia.
  rewrite Z.pow_0_r, Z.mul_1_r.
  pose proof (pow2_pos (52 - k) ltac:(lia)) as HP.
  assert (Hscaled : b * 2 ^ 52 <= a * 2 ^ (52 - k)).
  { destruct (Z_le_gt_dec 0 k).
    - rewrite (Z.max_r 0 k), (Z.max_l 0 (- k)), Z.pow_0_r in Hlow by lia.
      replace (2 ^ 52) with (2 ^ k * 2 ^ (52 - k))
        by (rewrite <- Z.pow_add_r by lia; f_equal; lia).
      nia.
    - rewrite (Z.max_l 0 k), (Z.max_r 0 (- k)), Z.pow_0_r in Hlow by lia.
      replace (2 ^ (52 - k)) with (2 ^ (- k) * 2 ^ 52)
        by (rewrite <- Z.pow_add_r by lia; f_equal; lia).
      nia. }
  pose proof (rne_div_spec (a * 2 ^ (52 - k)) b Hb) as Hrne.
  set (m0 := rne_div (a * 2 ^ (52 - k)) b) in *.
  set (A := a * 2 ^ (52 - k)) in *.
  destruct (Z.eqb_spec m0 (2 ^ 53)) as [Hnorm | _].
  - exists (2 ^ (53 - 1)), (52 - k - 1). split; [f_equal; lia|].
    split; [lia|]. split; [lia|].
    assert (HA : A = 2 * (a * 2 ^ (52 - k - 1))).
    { unfold A. replace (52 - k) with (1 + (52 - k - 1)) at 1 by lia.
      rewrite Z.pow_add_r by lia. change (2 ^ 1) with 2. ring. }
    rewrite Hnorm in Hrne. change (2 ^ (53 - 1)) with (2 ^ 52).
    set (A' := a * 2 ^ (52 - k - 1)) in *. lia.
  - exists m0, (52 - k). split; [f_equal; lia|].
    split; [lia|]. split; [lia|]. split; lia.
Qed.

(** The same for [round], whatever common factor the two arguments carry. *)
Lemma round_scaled (a b K : Z) :
  0 < a -> 0 < b -> 0 < K -> a < b * 2 ^ 50 ->
  exists m sh,
    round (a * K) (b * K) = {| mant := m; expo := - sh |}
    /\ 0 < sh /\ 0 < m
    /\ 2 ^ 53 * Z.abs (m * b - a * 2 ^ sh) <= a * 2 ^ sh
    /\ 2 * Z.abs (m * b - a * 2 ^ sh) <= b.
Proof.
  intros Ha Hb HK Hsmall.
  destruct (round_pos_spec (a * K) (b * K)) as (m & sh & Hr & Hsh & Hm & He & Hh);
    [nia | nia | nia |].
  exists m, sh. split.
  - unfold round. destruct (a * K) eqn:E; [nia | exact Hr | nia].
  - split; [exact Hsh|]. split; [exact Hm|].
    replace (m * (b * K) - a * K * 2 ^ sh) with ((m * b - a * 2 ^ sh) * K) in * by ring.
    rewrite Z.abs_mul, (Z.abs_eq K) in * by lia.
    pose proof (Z.abs_nonneg (m * b - a * 2 ^ sh)) as Habs.
    set (X := Z.abs (m * b - a * 2 ^ sh)) in *.
    set (Y := a * 2 ^ sh) in *.
    split; [|nia].
    replace (a * K * 2 ^ sh) with (Y * K) in He by (unfold Y; ring).
    apply (Z.mul_le_mono_pos_r _ _ K HK). lia.
Qed.

Lemma round_holds (n K : Z) :
  0 <= n < 2 ^ 50 -> 0 < K -> holds (round (n * K) K) n.
Proof.
  intros Hn HK. destruct (Z.eq_dec n 0) as [-> | Hne].
  - exists 0. simpl. repeat split; lia.
  - destruct (round_scaled n 1 K) as (m & sh & Hr & Hsh & Hm & _ & Hh); try lia.
    rewrite Z.mul_1_l in Hr. rewrite Hr.
    exists sh. simpl. split; [lia|]. split; [lia | reflexivity].
Qed.

Lemma of_Z_holds (n : Z) : 0 <= n < 2 ^ 50 -> holds (of_Z n) n.
Proof.
  intros Hn. unfold of_Z. rewrite <- (Z.mul_1_r n) at 1.
  apply round_holds; lia.
Qed.

Lemma add_holds (x y : float) (n k : Z) :
  holds x n -> holds y k -> 0 <= n -> 0 <= k -> n + k < 2 ^ 50 ->
  holds (add x y) (n + k).
Proof.
  intros (a & Ha & Hmx & Hex) (c & Hc & Hmy & Hey) Hn Hk Hsum.
  unfold add. rewrite Hmx, Hmy, Hex, Hey.
  set (M := Z.max a c).
  replace (Z.min (- a) (- c)) with (- M) by lia.
  replace (Z.max 0 (- M)) with 0 by lia.
  replace (Z.max 0 (- - M)) with M by lia.
  rewrite Z.pow_0_r, Z.mul_1_r.
  replace (n * 2 ^ a * 2 ^ (- a - - M) + k * 2 ^ c * 2 ^ (- c - - M))
    with ((n + k) * 2 ^ M).
  - apply round_holds; [lia | apply pow2_pos; lia].
  - rewrite <- !Z.mul_assoc, <- !Z.pow_add_r by lia.
    replace (a + (- a - - M)) with M by lia.
    replace (c + (- c - - M)) with M by lia. ring.
Qed.

Lemma div_spec (x y : float) (s t : Z) :
  holds x s -> holds y t -> 0 < s -> s <= t ->
  exists m sh,
    div x y = {| mant := m; expo := - sh |}
    /\ 0 < sh /\ 0 < m
    /\ 2 ^ 53 * Z.abs (m * t - s * 2 ^ sh) <= s * 2 ^ sh.
Proof.
  intros (a & Ha & Hmx & Hex) (c & Hc & Hmy & Hey) Hs Hst.
  unfold div. rewrite Hmx, Hmy, Hex, Hey.
  set (M := Z.max a c).
  replace (s * 2 ^ a * 2 ^ Z.max 0 (- a - - c)) with (s * 2 ^ M).
  2:{ rewrite <- Z.mul_assoc, <- Z.pow_add_r by lia. do 2 f_equal. lia. }
  replace (t * 2 ^ c * 2 ^ Z.max 0 (- (- a - - c))) with (t * 2 ^ M).
  2:{ rewrite <- Z.mul_assoc, <- Z.pow_add_r by lia. do 2 f_equal. lia. }
  destruct (round_scaled s t (2 ^ M)) as (m & sh & Hr & Hsh & Hm & He & _);
    [lia | lia | apply pow2_pos; lia | lia |].
  exists m, sh. auto.
Qed.

Lemma mul_spec (m1 sh1 : Z) (y : float) (c : Z) :
  0 < m1 -> 0 < sh1 -> holds y c -> 0 < c -> m1 * c < 2 ^ sh1 * 2 ^ 50 ->
  exists m sh,
    mul {| mant := m1; expo := - sh1 |} y = {| mant := m; expo := - sh |}
    /\ 0 < sh /\ 0 < m
    /\ 2 ^ 53 * Z.abs (m * 2 ^ sh1 - m1 * c * 2 ^ sh) <= m1 * c * 2 ^ sh.
Proof.
  intros Hm1 Hsh1 (a & Ha & Hmy & Hey) Hc Hsmall.
  unfold mul. simpl. rewrite Hmy, Hey.
  replace (Z.max 0 (- sh1 + - a)) with 0 by lia.
  replace (Z.max 0 (- (- sh1 + - a))) with (sh1 + a) by lia.
  rewrite Z.pow_0_r, Z.mul_1_r, Z.pow_add_r by lia.
  replace (m1 * (c * 2 ^ a)) with (m1 * c * 2 ^ a) by ring.
  destruct (round_scaled (m1 * c) (2 ^ sh1) (2 ^ a)) as (m & sh & Hr & Hsh & Hm & He & _);
    [nia | apply pow2_pos; lia | apply pow2_pos; lia | lia |].
  exists m, sh. auto.
Qed.

Lemma Math_round_spec (m sh : Z) :
  0 < sh ->
  let r := Math_round {| mant := m; expo := - sh |} in
  r * 2 ^ (sh + 1) <= 2 * m + 2 ^ sh < (r + 1) * 2 ^ (sh + 1).
Proof.
  intros Hsh. unfold Math_round. simpl.
  destruct (Z.leb_spec 0 (- sh)); [lia|].
  rewrite Z.opp_involutive.
  pose proof (pow2_pos (sh + 1) ltac:(lia)) as HP.
  pose proof (Z.div_mod (2 * m + 2 ^ sh) (2 ^ (sh + 1)) ltac:(lia)) as Hdm.
  pose proof (Z.mod_pos_bound (2 * m + 2 ^ sh) (2 ^ (sh + 1)) HP) as Hm.
  nia.
Qed.

(** The arithmetic of the whole computation: a quotient and a product,
    each within [2 ^ -53], then [Math.round].  With a total below
    [2 ^ 44] the two errors cannot carry the product across a half. *)
Lemma nearest_percent (s t m1 P1 m2 P2 r : Z) :
  0 < s -> s <= t -> t <= 2 ^ 44 ->
  0 < P1 -> 0 < P2 -> 0 < m1 -> 0 < m2 ->
  2 ^ 53 * Z.abs (m1 * t - s * P1) <= s * P1 ->
  2 ^ 53 * Z.abs (m2 * P1 - m1 * 100 * P2) <= m1 * 100 * P2 ->
  r * (2 * P2) <= 2 * m2 + P2 < (r + 1) * (2 * P2) ->
  2 * Z.abs (r * t - 100 * s) <= t.
Proof.
  intros Hs Hst Ht HP1 HP2 Hm1 Hm2 HA HB HC.
  change (2 ^ 53) with 9007199254740992 in *.
  change (2 ^ 44) with 17592186044416 in *.
  set (E := 9007199254740992) in *.
  assert (HE : E = 9007199254740992) by reflexivity.
  assert (Hr : 0 <= r) by nia.
  (* the quotient and the product, from below and from above *)
  assert (A1 : (E - 1) * (s * P1) <= E * (m1 * t)) by lia.
  assert (A2 : E * (m1 * t) <= (E + 1) * (s * P1)) by lia.
  assert (B1 : (E - 1) * (100 * (m1 * P2)) <= E * (m2 * P1)) by lia.
  assert (B2 : E * (m2 * P1) <= (E + 1) * (100 * (m1 * P2))) by lia.
  assert (D1 : (E - 1) * (E - 1) * 100 * s * P2 <= E * E * m2 * t).
  { apply (Z.mul_le_mono_pos_r _ _ P1 HP1).
    transitivity ((E - 1) * 100 * P2 * (E * (m1 * t))).
    - replace ((E - 1) * (E - 1) * 100 * s * P2 * P1)
        with ((E - 1) * 100 * P2 * ((E - 1) * (s * P1))) by ring.
      apply Z.mul_le_mono_nonneg_l; [nia | exact A1].
    - replace ((E - 1) * 100 * P2 * (E * (m1 * t)))
        with ((E - 1) * (100 * (m1 * P2)) * (E * t)) by ring.
      replace (E * E * m2 * t * P1) with (E * (m2 * P1) * (E * t)) by ring.
      apply Z.mul_le_mono_nonneg_r; [nia | exact B1]. }
  assert (D2 : E * E * m2 * t <= (E + 1) * (E + 1) * 100 * s * P2).
  { apply (Z.mul_le_mono_pos_r _ _ P1 HP1).
    transitivity ((E + 1) * 100 * P2 * (E * (m1 * t))).
    - replace (E * E * m2 * t * P1) with (E * (m2 * P1) * (E * t)) by ring.
      replace ((E + 1) * 100 * P2 * (E * (m1 * t)))
        with ((E + 1) * (100 * (m1 * P2)) * (E * t)) by ring.
      apply Z.mul_le_mono_nonneg_r; [nia | exact B2].
    - replace ((E + 1) * (E + 1) * 100 * s * P2 * P1)
        with ((E + 1) * 100 * P2 * ((E + 1) * (s * P1))) by ring.
      apply Z.mul_le_mono_nonneg_l; [nia | exact A2]. }
  (* Math.round, times E * E * t *)
  assert (C1 : 2 * (E * E * m2 * t) < E * E * t * ((2 * r + 1) * P2)).
  { replace (2 * (E * E * m2 * t)) with (E * E * t * (2 * m2)) by ring.
    apply Z.mul_lt_mono_pos_l; [nia | lia]. }
  assert (C2 : E * E * t * ((2 * r - 1) * P2) <= 2 * (E * E * m2 * t)).
  { replace (2 * (E * E * m2 * t)) with (E * E * t * (2 * m2)) by ring.
    apply Z.mul_le_mono_nonneg_l; [nia | lia]. }
  assert (F1 : 200 * ((E - 1) * (E - 1)) * s < E * E * ((2 * r + 1) * t)).
  { apply (Z.mul_lt_mono_pos_r P2 _ _ HP2).
    replace (200 * ((E - 1) * (E - 1)) * s * P2)
      with (2 * ((E - 1) * (E - 1) * 100 * s * P2)) by ring.
    replace (E * E * ((2 * r + 1) * t) * P2)
      with (E * E * t * ((2 * r + 1) * P2)) by ring.
    lia. }
  assert (F2 : E * E * ((2 * r - 1) * t) <= 200 * ((E + 1) * (E + 1)) * s).
  { apply (Z.mul_le_mono_pos_r _ _ P2 HP2).
    replace (200 * ((E + 1) * (E + 1)) * s * P2)
      with (2 * ((E + 1) * (E + 1) * 100 * s * P2)) by ring.
    replace (E * E * ((2 * r - 1) * t) * P2)
      with (E * E * t * ((2 * r - 1) * P2)) by ring.
    lia. }
  clear A1 A2 B1 B2 D1 D2 C1 C2 HA HB HC.
  subst E. lia.
Qed.

End Binary64Facts.

Section SuccessRate.
Import Binary64 Binary64Facts.
Local Open Scope Z_scope.

Variables (status : Status) (successful failed : Z).
Hypothesis Hsuccessful : successful_geocodes status = Some successful.
Hypothesis Hfailed : failed_geocodes status = Some failed.
Hypothesis Hs : 0 <= successful.
Hypothesis Hf : 0 <= failed.
Hypothesis Hbound : successful + failed <= 2 ^ 44.

Lemma total_holds :
  holds (add (of_Z (or_zero (successful_geocodes status)))
             (of_Z (or_zero (failed_geocodes status))))
        (successful + failed).
Proof.
  rewrite Hsuccessful, Hfailed. simpl or_zero.
  assert (2 ^ 44 < 2 ^ 50) by reflexivity.
  apply add_holds; try apply of_Z_holds; lia.
Qed.

Lemma success_rate_zero :
  successful + failed = 0 -> success_rate status = Some 0.
Proof.
  intros H0. unfold success_rate.
  destruct total_holds as (sh & Hsh & Hm & _).
  unfold is_pos. rewrite Hm, H0. reflexivity.
Qed.

Lemma success_rate_nearest :
  0 < successful + failed ->
  exists rate,
    success_rate status = Some rate
    /\ 2 * Z.abs (rate * (successful + failed) - 100 * successful)
       <= successful + failed.
Proof.
  intros Hpos. unfold success_rate.
  pose proof total_holds as Ht.
  set (total := add _ _) in *.
  destruct Ht as (sh & Hsh & Hm & He).
  assert (Hp : is_pos total = true).
  { unfold is_pos. rewrite Hm. apply Z.ltb_lt.
    pose proof (pow2_pos sh Hsh). nia. }
  rewrite Hp, Hsuccessful.
  assert (Ht : holds total (successful + failed)) by (exists sh; auto).
  destruct (Z.eq_dec successful 0) as [H0 | Hne].
  - exists 0. split; [|lia]. rewrite H0. reflexivity.
  - assert (2 ^ 44 < 2 ^ 50) by reflexivity.
    destruct (div_spec (of_Z successful) total successful (successful + failed))
      as (m1 & sh1 & Hd & Hsh1 & Hm1 & HA);
      [apply of_Z_holds; lia | exact Ht | lia | lia |].
    pose proof (pow2_pos sh1 ltac:(lia)) as HP1.
    destruct (mul_spec m1 sh1 (of_Z 100) 100) as (m2 & sh2 & Hmul & Hsh2 & Hm2 & HB);
      [lia | lia | apply of_Z_holds; split; [lia | reflexivity] | lia | |].
    { change (2 ^ 53) with 9007199254740992 in HA.
      change (2 ^ 50) with 1125899906842624.
      set (P1 := 2 ^ sh1) in *.
      assert (m1 * (successful + failed) <= 2 * (successful * P1)) by lia.
      assert (successful * P1 <= (successful + failed) * P1) by nia.
      assert (m1 <= 2 * P1) by nia. nia. }
    rewrite Hd, Hmul. eexists. split; [reflexivity|].
    pose proof (pow2_pos sh2 ltac:(lia)) as HP2.
    pose proof (Math_round_spec m2 sh2 Hsh2) as HC. cbv zeta in HC.
    rewrite Z.pow_add_r, Z.pow_1_r, (Z.mul_comm (2 ^ sh2) 2) in HC by lia.
    apply (nearest_percent successful (successful + failed) m1 (2 ^ sh1) m2 (2 ^ sh2));
      auto; lia.
Qed.

End SuccessRate.

(** The rounding of the model is the rounding of the kernel's floats, on
    every quotient of totals up to 60 and on the totals of the examples. *)
Example model_agrees_with_primitive_floats :
  forallb (fun '(s, t) =>
             same_float
               (to_spec_float
                  (Binary64.mul (Binary64.div (Binary64.of_Z s) (Binary64.of_Z t))
                                (Binary64.of_Z 100)))
               (primitive_percentage s t))
          (pairs_up_to 60 ++ [(29, 200); (1, 3000); (123456789, 987654321)]%Z)
  = true.
Proof. vm_compute. reflexivity. Qed.

(** C8 (as amended): with both counts present, non-negative and at most
    [2 ^ 44] in total, the rate shown is [0] for an empty total and else a
    whole percent nearest to the exact quotient: the exact quotient rounded
    half up, or one less when the exact quotient is a half. *)
Theorem success_rate_is_a_nearest_percent
    (status : Status) (successful failed : Z) (p : Page) :
  successful_geocodes status = Some successful ->
  failed_geocodes status = Some failed ->
  (0 <= successful)%Z -> (0 <= failed)%Z -> (successful + failed <= 2 ^ 44)%Z ->
  exists rate : Z,
    success_rate status = Some rate
    /\ content_of (updateProgressDisplay status p) successRate
       = textContent (JSString.of_Z rate ++ "%")
    /\ (successful + failed = 0 -> rate = 0)%Z
    /\ (2 * Z.abs (rate * (successful + failed) - 100 * successful)
        <= successful + failed)%Z
    /\ (rate = exact_rate successful failed
        \/ (200 * successful = (2 * rate + 1) * (successful + failed)
            /\ exact_rate successful failed = rate + 1))%Z.
Proof.
  intros Hsucc Hfail Hs Hf Hbound.
  assert (Hrate : exists rate, success_rate status = Some rate
            /\ (successful + failed = 0 -> rate = 0)%Z
            /\ (2 * Z.abs (rate * (successful + failed) - 100 * successful)
                <= successful + failed)%Z).
  { destruct (Z.eq_dec (successful + failed) 0)%Z as [H0 | Hne].
    - exists 0%Z. rewrite (success_rate_zero status successful failed); auto.
      split; [reflexivity|]. split; [reflexivity|]. lia.
    - destruct (success_rate_nearest status successful failed)
        as (rate & Hr & Hn); auto; [lia|].
      exists rate. split; [exact Hr|]. split; [lia | exact Hn]. }
  destruct Hrate as (rate & Hr & H0 & Hn).
  exists rate. split; [exact Hr|]. split.
  { unfold updateProgressDisplay, assign_width. rewrite Hr.
    destruct (0 <=? or_zero (progress_percent status))%Z;
      (destruct (current_address status) as [a|]; [destruct (JSString.truthy a)|]);
      reflexivity. }
  split; [exact H0|]. split; [exact Hn|].
  unfold exact_rate.
  destruct (Z.ltb_spec 0 (successful + failed)) as [Hpos | Hz].
  - set (t := (successful + failed)%Z) in *.
    destruct (Z.eq_dec (200 * successful) ((2 * rate + 1) * t))%Z as [Htie | Hno].
    + right. split; [exact Htie|].
      symmetry. apply (Z.div_unique _ _ _ 0%Z); lia.
    + left. apply (Z.div_unique _ _ _ (200 * successful + t - rate * (2 * t))%Z); lia.
  - left. apply H0. lia.
Qed.

Lemma success_rate_is_a_nearest_percent_witness :
  exists rate : Z,
    success_rate sample_complete = Some rate
    /\ content_of (updateProgressDisplay sample_complete initial_page) successRate
       = textContent (JSString.of_Z rate ++ "%")
    /\ (7 + 3 = 0 -> rate = 0)%Z
    /\ (2 * Z.abs (rate * (7 + 3) - 100 * 7) <= 7 + 3)%Z
    /\ (rate = exact_rate 7 3
        \/ (200 * 7 = (2 * rate + 1) * (7 + 3) /\ exact_rate 7 3 = rate + 1))%Z.
Proof.
  apply (success_rate_is_a_nearest_percent sample_complete 7 3 initial_page);
    try reflexivity; vm_compute; discriminate.
Defined.

(** The two examples of the specification. *)
Example success_rate_7_3 :
  content_of (updateProgressDisplay (counts 7 3) initial_page) successRate
  = textContent "70%".
Proof. vm_compute. reflexivity. Qed.

Example success_rate_0_0 :
  content_of (updateProgressDisplay (counts 0 0) initial_page) successRate
  = textContent "0%".
Proof. vm_compute. reflexivity. Qed.

(** A half that binary64 holds exactly does go up: 1 of 8 is 12.5 percent. *)
Example success_rate_1_of_8 :
  content_of (updateProgressDisplay (counts 1 7) initial_page) successRate
  = textContent "13%".
Proof. vm_compute. reflexivity. Qed.

(** C8 as stated fails.  29 of 200 is 14.5 percent, which rounds to 15;
    the page shows 14, because the double nearest to 29/200, times 100, is
    the double just below 14.5.  And with a total above [2 ^ 45] the page
    can show a percent that no rounding rule gives: the second quotient is
    below 59.5 percent, and the page shows 60. *)
Lemma success_rate_29_of_200 :
  content_of (updateProgressDisplay (counts 29 171) initial_page) successRate
  = textContent "14%"
  /\ exact_rate 29 171 = 15%Z
  /\ to_spec_float
       (Binary64.mul (Binary64.div (Binary64.of_Z 29) (Binary64.of_Z 200))
                     (Binary64.of_Z 100))
     = primitive_percentage 29 200
  /\ content_of (updateProgressDisplay (counts 40383380886980 27487847494499)
                   initial_page) successRate
     = textContent "60%"
  /\ exact_rate 40383380886980 27487847494499 = 59%Z
  /\ (200 * 40383380886980 <? (2 * 59 + 1) * (40383380886980 + 27487847494499))%Z
     = true
  /\ to_spec_float
       (Binary64.mul (Binary64.div (Binary64.of_Z 40383380886980)
                                   (Binary64.of_Z 67871228381479))
                     (Binary64.of_Z 100))
     = primitive_percentage 40383380886980 67871228381479.
Proof. repeat split; vm_compute; reflexivity. Qed.

(** A snapshot without [successful_geocodes] but with failures shows no
    number at all. *)
Example success_rate_missing_count :
  content_of
    (updateProgressDisplay
       {| progress_percent := None; current_address := None;
          total_processed := Some 3%Z; successful_geocodes := None;
          failed_geocodes := Some 3%Z; processing_complete := false;
          results_log := None |} initial_page) successRate
  = textContent "NaN%".
Proof. vm_compute. reflexivity. Qed.

(** * More of the script *)

(** ** The column selects after an upload *)

Lemma indexOf_Some (x : string) (l : list string) (i : nat) :
  indexOf x l = Some i ->
  l !! i = Some x /\ forall j y, (j < i)%nat -> l !! j = Some y -> y <> x.
Proof.
  revert i. induction l as [|y l IH]; intros i; simpl; [discriminate|].
  destruct (String.eqb_spec y x) as [-> | Hne].
  - intros [= <-]. split; [reflexivity | intros j z Hj; lia].
  - destruct (indexOf x l) as [k|]; [|discriminate].
    intros [= <-]. destruct (IH k eq_refl) as [Hk Hfirst]. split; [exact Hk|].
    intros [|j] z Hj; simpl; [now intros [= <-] | apply Hfirst; lia].
Qed.

Lemma indexOf_None (x : string) (l : list string) :
  indexOf x l = None <-> x ∉ l.
Proof.
  induction l as [|y l IH]; simpl.
  - split; [intros _; apply not_elem_of_nil | reflexivity].
  - rewrite not_elem_of_cons. destruct (String.eqb_spec y x) as [-> | Hne].
    + split; [discriminate | intros [? _]; congruence].
    + destruct (indexOf x l); simpl.
      * split; [discriminate | intros [_ H]; now apply IH in H].
      * split; [intros _; split; [congruence | now apply IH] | reflexivity].
Qed.

(** Where a pattern is found, the header at that place is chosen. *)
Lemma nth_lowered (hs : list string) (i : nat) (p current : string) :
  map JSString.toLowerCase hs !! i = Some p ->
  hs !! i = Some (nth i hs current)
  /\ JSString.toLowerCase (nth i hs current) = p.
Proof.
  revert i. induction hs as [|h hs IH]; intros [|i]; simpl; try discriminate.
  - now intros [= <-].
  - apply IH.
Qed.

Lemma first_match_none (patternList hs : list string) (current : string) :
  (forall q, q ∈ patternList -> q ∉ map JSString.toLowerCase hs) ->
  first_match patternList hs current = current.
Proof.
  induction patternList as [|q rest IH]; intros Hnone; simpl; [reflexivity|].
  assert (Hq : indexOf q (map JSString.toLowerCase hs) = None)
    by (apply indexOf_None, Hnone; left).
  rewrite Hq. apply IH. intros q' Hin. apply Hnone. now right.
Qed.

Lemma first_match_found (before after hs : list string) (pattern current : string) :
  (forall q, q ∈ before -> q ∉ map JSString.toLowerCase hs) ->
  pattern ∈ map JSString.toLowerCase hs ->
  exists i,
    hs !! i = Some (first_match (before ++ pattern :: after) hs current)
    /\ JSString.toLowerCase (first_match (before ++ pattern :: after) hs current)
       = pattern
    /\ forall j h, (j < i)%nat -> hs !! j = Some h ->
                   JSString.toLowerCase h <> pattern.
Proof.
  intros Hbefore Hin. induction before as [|q before IH]; simpl.
  - destruct (indexOf pattern (map JSString.toLowerCase hs)) as [i|] eqn:E;
      [|apply indexOf_None in E; contradiction].
    apply indexOf_Some in E as [Hi Hfirst].
    destruct (nth_lowered hs i pattern current Hi) as [Hh Hl].
    exists i. split; [exact Hh|]. split; [exact Hl|].
    intros j h Hj Hjh. apply (Hfirst j); [exact Hj|].
    now rewrite list_lookup_fmap, Hjh.
  - assert (Hq : indexOf q (map JSString.toLowerCase hs) = None)
      by (apply indexOf_None, Hbefore; left).
    rewrite Hq. apply IH. intros q' Hq'. apply Hbefore. now right.
Qed.

(** In every case the value is the current one or a header. *)
Lemma first_match_in (patternList hs : list string) (current : string) :
  first_match patternList hs current = current
  \/ first_match patternList hs current ∈ hs.
Proof.
  induction patternList as [|q rest IH]; simpl; [now left|].
  destruct (indexOf q (map JSString.toLowerCase hs)) as [i|] eqn:E; [|exact IH].
  right. apply indexOf_Some in E as [Hi _].
  destruct (nth_lowered hs i q current Hi) as [Hh _].
  eapply list_elem_of_lookup_2, Hh.
Qed.

Lemma populateColumnSelects_value (hs : list string) (p : Page) (sel : select) :
  value (populateColumnSelects hs p) sel = first_match (patterns sel) hs (hd "" hs).
Proof. reflexivity. Qed.

Lemma populated_value_in (hs : list string) (p : Page) (sel : select) :
  hs <> [] -> value (populateColumnSelects hs p) sel ∈ hs.
Proof.
  rewrite populateColumnSelects_value. intros Hne.
  destruct (first_match_in (patterns sel) hs (hd "" hs)) as [-> | H]; [|exact H].
  destruct hs as [|h hs]; [congruence | left].
Qed.

(** X1: after [populateColumnSelects] every select offers the headers, in
    their order, and shows one of them; with no header at all it shows the
    empty value. *)
Theorem populateColumnSelects_shows_a_header
    (hs : list string) (p : Page) (sel : select) :
  options (populateColumnSelects hs p) sel = hs
  /\ (hs = [] -> value (populateColumnSelects hs p) sel = "")
  /\ (hs <> [] -> value (populateColumnSelects hs p) sel ∈ hs).
Proof.
  split; [reflexivity|]. split; [|apply populated_value_in].
  rewrite populateColumnSelects_value.
  intros ->. apply first_match_none. intros q _. apply not_elem_of_nil.
Qed.

(** X2: the select takes the first pattern of its list that equals a
    lower-cased header, and of the headers that lower-case to it the first
    one; when no pattern does, it stays on the first header. *)
Theorem autoSelectColumns_takes_first_pattern
    (hs : list string) (p : Page) (sel : select) :
  (forall before pattern after,
      patterns sel = before ++ pattern :: after ->
      (forall q, q ∈ before -> q ∉ map JSString.toLowerCase hs) ->
      pattern ∈ map JSString.toLowerCase hs ->
      exists i,
        hs !! i = Some (value (populateColumnSelects hs p) sel)
        /\ JSString.toLowerCase (value (populateColumnSelects hs p) sel) = pattern
        /\ forall j h, (j < i)%nat -> hs !! j = Some h ->
                       JSString.toLowerCase h <> pattern)
  /\ ((forall q, q ∈ patterns sel -> q ∉ map JSString.toLowerCase hs) ->
      value (populateColumnSelects hs p) sel = hd "" hs).
Proof.
  rewrite populateColumnSelects_value. split.
  - intros before pattern after -> Hbefore Hin.
    now apply first_match_found.
  - apply first_match_none.
Qed.

(** The headers of the specification's example: no pattern is the whole of
    [street address], and the first header stays. *)
Example autoSelectColumns_example :
  map (value (populateColumnSelects ["Street Address"; "CITY"; "State"; "Zip"; "zip"]
                initial_page))
      [addressColumn; cityColumn; stateColumn; zipColumn]
  = ["Street Address"; "CITY"; "State"; "Zip"].
Proof. reflexivity. Qed.

(** ** Upload and launch *)

Lemma upload_success_state (result : UploadResult) (s : State) :
  let s' := handleFileUpload_settled (Parsed true result) s in
  currentSessionId s' = session_id result
  /\ processingInterval s' = processingInterval s
  /\ isProcessing s' = isProcessing s
  /\ intervals s' = intervals s
  /\ next_interval s' = next_interval s
  /\ (forall sel, options (page s') sel = headers result)
  /\ (forall sel, value (page s') sel
                  = value (populateColumnSelects (headers result) initial_page) sel)
  /\ downloadBtn_onclick (page s') = downloadBtn_onclick (page s)
  /\ alerts (page s') = alerts (page s).
Proof.
  cbv zeta. simpl. unfold hideLoading.
  destruct (isProcessing s) eqn:E; simpl; rewrite ?E; repeat split.
Qed.

Lemma has_session_truthy (s : State) (sid : string) :
  currentSessionId s = Some sid -> sid <> "" -> has_session s = Some sid.
Proof.
  intros H Hne. unfold has_session. rewrite H.
  now apply truthy_spec in Hne as ->.
Qed.

(** X3: after an upload that gave a session and headers, none of them empty,
    pressing the process button at once sends one request, with that
    session and four of the headers, and shows no alert. *)
Theorem upload_then_process (result : UploadResult) (s : State) (sid : string) :
  session_id result = Some sid -> sid <> "" ->
  headers result <> [] -> "" ∉ headers result ->
  let s' := handleFileUpload_settled (Parsed true result) s in
  let config := read_config sid (page s') in
  processFile s' = (s', [PostProcess config])
  /\ address_column config ∈ headers result
  /\ city_column config ∈ headers result
  /\ state_column config ∈ headers result
  /\ zip_column config ∈ headers result.
Proof.
  intros Hsid Hne Hhs Hempty s' config.
  destruct (upload_success_state result s) as (Hc & _ & _ & _ & _ & _ & Hv & _).
  fold s' in Hc, Hv.
  assert (Hin : forall sel, value (page s') sel ∈ headers result).
  { intros sel. rewrite Hv.
    now apply populated_value_in. }
  assert (Hfull : mapping_complete config = true).
  { assert (Hval : forall sel, value (page s') sel <> "").
    { intros sel Heq. apply Hempty. rewrite <- Heq. apply Hin. }
    apply mapping_complete_spec.
    exact (conj (Hval addressColumn) (conj (Hval cityColumn)
            (conj (Hval stateColumn) (Hval zipColumn)))). }
  split.
  - unfold processFile. rewrite (has_session_truthy s' sid) by congruence.
    fold config. now rewrite Hfull.
  - exact (conj (Hin addressColumn) (conj (Hin cityColumn)
            (conj (Hin stateColumn) (Hin zipColumn)))).
Qed.

Lemma upload_then_process_witness :
  let s' := handleFileUpload_settled (Parsed true sample_upload) initial_state in
  processFile s' = (s', [PostProcess (read_config "s1" (page s'))])
  /\ read_config "s1" (page s') = sample_config.
Proof.
  split; [|reflexivity].
  apply (upload_then_process sample_upload initial_state "s1");
    [reflexivity | discriminate | discriminate |].
  apply (bool_decide_unpack _). vm_compute. exact I.
Defined.

(** X4: an upload that fails, in any of the three ways, keeps the session,
    the selects and the polling loop as they were, and shows one alert: the
    error text of the server when it sent one, else a fixed text, or the
    message of the exception.  The progress section is hidden again unless
    processing is active. *)
Theorem upload_failure_keeps_session (r : Fetched UploadResult) (s : State) :
  is_failure r = true ->
  let s' := handleFileUpload_settled r s in
  globals s' = globals s
  /\ (forall sel, options (page s') sel = options (page s) sel)
  /\ (forall sel, value (page s') sel = value (page s) sel)
  /\ alerts (page s') = alerts (page s) ++ [upload_failure_text r]
  /\ display (page s') progressSection
     = (if isProcessing s then display (page s) progressSection else "none").
Proof.
  intros Hf s'. subst s'. unfold globals.
  destruct r as [msg | ok msg | [] result]; try discriminate; simpl;
    unfold hideLoading; destruct (isProcessing s) eqn:E; simpl; rewrite ?E;
    repeat split.
Qed.

Lemma upload_failure_keeps_session_witness :
  is_failure (Parsed false
                {| session_id := None; filename := ""; headers := [];
                   upload_error := Some "No file part" |}) = true
  /\ alerts (page (handleFileUpload_settled
                     (Parsed false
                        {| session_id := None; filename := ""; headers := [];
                           upload_error := Some "No file part" |})
                     running_state))
     = ["Error: No file part"]
  /\ currentSessionId
       (handleFileUpload_settled
          (Parsed false
             {| session_id := None; filename := ""; headers := [];
                upload_error := Some "No file part" |})
          running_state)
     = Some "s1".
Proof.
  split; [reflexivity|].
  pose proof (upload_failure_keeps_session
                (Parsed false
                   {| session_id := None; filename := ""; headers := [];
                      upload_error := Some "No file part" |})
                running_state eq_refl) as H.
  cbv zeta in H. destruct H as (Hg & _ & _ & Ha & _).
  split; [exact Ha|].
  exact (f_equal (fun g => fst (fst (fst g))) Hg).
Defined.

(** X5: a file uploaded while processing is active replaces the session the
    running loop works on: the timer stays, the next tick asks for the
    status of the new session, and a stop is sent for the new session. *)
Theorem upload_during_run_redirects_polling
    (result : UploadResult) (s : State) (sid : string) :
  isProcessing s = true -> session_id result = Some sid -> sid <> "" ->
  let s' := handleFileUpload_settled (Parsed true result) s in
  intervals s' = intervals s
  /\ isProcessing s' = true
  /\ snd (updateProgress s') = [GetStatus sid]
  /\ snd (stopProcessing s') = [PostStop sid].
Proof.
  intros Hrun Hsid Hne s'.
  destruct (upload_success_state result s) as (Hc & _ & Hp & Hi & _).
  fold s' in Hc, Hp, Hi.
  assert (Hs : has_session s' = Some sid)
    by (apply has_session_truthy; congruence).
  split; [exact Hi|]. split; [congruence|].
  unfold updateProgress, stopProcessing. rewrite Hs, Hp, Hrun. now split.
Qed.

Lemma upload_during_run_redirects_polling_witness :
  snd (updateProgress running_state) = [GetStatus "s1"]
  /\ snd (updateProgress
            (handleFileUpload_settled (Parsed true second_upload) running_state))
     = [GetStatus "s2"]
  /\ snd (stopProcessing
            (handleFileUpload_settled (Parsed true second_upload) running_state))
     = [PostStop "s2"].
Proof.
  split; [reflexivity|].
  pose proof (upload_during_run_redirects_polling second_upload running_state "s2"
                eq_refl eq_refl ltac:(discriminate)) as H.
  cbv zeta in H. destruct H as (_ & _ & H3 & H4). now split.
Defined.

(** X6: polling starts on a 2xx response to [/process] with a body that
    parses, and on nothing else.  It then takes the next handle, and the
    process button gives way to the stop button; with handles that are
    fresh the live timers grow by one.  Any other outcome leaves the
    globals and the timers alone and shows one alert. *)
Theorem launch_needs_parsed_2xx (r : Fetched ProcessResult) (s : State) :
  let s' := processFile_settled r s in
  (is_failure r = true ->
     globals s' = globals s
     /\ next_interval s' = next_interval s
     /\ alerts (page s') = alerts (page s) ++ [launch_failure_text r])
  /\ (is_failure r = false ->
     isProcessing s' = true
     /\ processingInterval s' = Some (next_interval s)
     /\ intervals s' = {[ next_interval s ]} ∪ intervals s
     /\ alerts (page s') = alerts (page s)
     /\ display (page s') processBtn = "none"
     /\ display (page s') stopBtn = "inline-block"
     /\ (handles_fresh s ->
         size (intervals s') = S (size (intervals s)) /\ handles_fresh s')).
Proof.
  cbv zeta. split.
  - intros Hf. destruct r as [msg | ok msg | [] result]; try discriminate;
      repeat split.
  - intros Hf. destruct r as [msg | ok msg | [] result]; try discriminate.
    simpl. repeat split.
    + rewrite size_union, size_singleton; [reflexivity|].
      intros h ->%elem_of_singleton Hin. apply H in Hin. lia.
    + intros h [->%elem_of_singleton | Hin%H]%elem_of_union; simpl; lia.
Qed.

(** X7: the download button reads the session when it is clicked, not when
    processing completed: after a completion it leads to the session held
    then, and after a later upload to the session of that upload. *)
Theorem download_follows_session (result : UploadResult) (s : State) :
  downloadBtn_click (completeProcessing s) = Download (currentSessionId s)
  /\ downloadBtn_click
       (handleFileUpload_settled (Parsed true result) (completeProcessing s))
     = Download (session_id result).
Proof.
  split; [reflexivity|].
  destruct (upload_success_state result (completeProcessing s))
    as (Hc & _ & _ & _ & _ & _ & _ & Hd & _).
  unfold downloadBtn_click. now rewrite Hd, Hc.
Qed.

(** X8: only a successful upload changes the session, and only a launch
    turns processing on. *)
Theorem step_changes_session_and_processing (w w' : World) (ev : event) :
  step w ev = Some w' ->
  (currentSessionId (state w') = currentSessionId (state w)
   \/ exists file_name result, ev = UploadSettled file_name (Parsed true result))
  /\ (isProcessing (state w') = true ->
      isProcessing (state w) = true \/ is_launch ev = true).
Proof.
  intros Hstep. destruct ev; simpl in Hstep.
  - injection Hstep as <-. simpl.
    pose proof (handleFileUpload_globals file_name (state w)) as [= -> _ -> _].
    auto.
  - destruct (bool_decide _); [|discriminate]. injection Hstep as <-. auto.
  - injection Hstep as <-. simpl.
    pose proof (processFile_globals (state w)) as [= -> _ -> _]. auto.
  - injection Hstep as <-. simpl. rewrite stopProcessing_globals. auto.
  - destruct (bool_decide _); [|discriminate]. injection Hstep as <-. simpl.
    rewrite updateProgress_state. auto.
  - apply settle_inv in Hstep. rewrite Hstep.
    destruct (handleFileUpload_settled_polling r (state w)) as (_ & -> & _).
    split; [|auto].
    destruct r as [msg | ok msg | [] result]; [left | left | right; eauto | left];
      simpl; unfold hideLoading; now destruct (isProcessing (state w)).
  - apply settle_inv in Hstep. rewrite Hstep.
    destruct r as [msg | ok msg | [] result]; simpl; auto.
  - apply settle_inv in Hstep. rewrite Hstep. split.
    + left. destruct r as [msg | ok msg | [] status]; simpl; try reflexivity.
      now destruct (processing_complete status).
    + destruct r as [msg | ok msg | [] status]; simpl; auto.
      destruct (processing_complete status); simpl; auto.
  - apply settle_inv in Hstep. rewrite Hstep.
    destruct r as [msg | []]; simpl; auto.
Qed.

Lemma step_changes_session_and_processing_witness :
  step initial_world (FileChosen "addresses.csv")
  = Some (call (handleFileUpload "addresses.csv") initial_world)
  /\ currentSessionId
       (state (call (handleFileUpload "addresses.csv") initial_world)) = None.
Proof.
  split; [reflexivity|].
  destruct (step_changes_session_and_processing initial_world
              (call (handleFileUpload "addresses.csv") initial_world)
              (FileChosen "addresses.csv") eq_refl) as [[H | (f & r & H)] _];
    [exact H | discriminate H].
Defined.

(** ** Runs: what every sequence of events keeps *)

Lemma run_app (w : World) (evs1 evs2 : list event) :
  run w (evs1 ++ evs2)
  = match run w evs1 with
    | Some w1 => run w1 evs2
    | None => None
    end.
Proof.
  revert w. induction evs1 as [|ev evs1 IH]; intros w; simpl; [reflexivity|].
  destruct (step w ev); [apply IH | reflexivity].
Qed.

(** What a handler does to the timers: nothing, or a launch, or the end of
    a loop. *)
Lemma step_timers (w w' : World) (ev : event) :
  step w ev = Some w' ->
  (processingInterval (state w') = processingInterval (state w)
   /\ isProcessing (state w') = isProcessing (state w)
   /\ intervals (state w') = intervals (state w)
   /\ next_interval (state w') = next_interval (state w))
  \/ (processingInterval (state w') = Some (next_interval (state w))
      /\ isProcessing (state w') = true
      /\ intervals (state w') = {[ next_interval (state w) ]} ∪ intervals (state w)
      /\ next_interval (state w') = S (next_interval (state w)))
  \/ (processingInterval (state w') = processingInterval (state w)
      /\ isProcessing (state w') = false
      /\ intervals (state w')
         = intervals (clearInterval_processingInterval (state w))
      /\ next_interval (state w') = next_interval (state w)).
Proof.
  intros Hstep. destruct ev; simpl in Hstep.
  - injection Hstep as <-. left. simpl. unfold handleFileUpload.
    now destruct (negb _).
  - destruct (bool_decide _); [|discriminate]. injection Hstep as <-. now left.
  - injection Hstep as <-. left. simpl. unfold processFile.
    destruct (has_session _); [destruct (negb _)|]; now simpl.
  - injection Hstep as <-. left. simpl. now rewrite stopProcessing_globals.
  - destruct (bool_decide _); [|discriminate]. injection Hstep as <-. left.
    simpl. now rewrite updateProgress_state.
  - apply settle_inv in Hstep. rewrite Hstep. left.
    destruct r as [msg | ok msg | [] result]; simpl;
      unfold hideLoading; destruct (isProcessing (state w)) eqn:E; simpl;
      rewrite ?E; auto.
  - apply settle_inv in Hstep. rewrite Hstep.
    destruct r as [msg | ok msg | [] result]; simpl; auto.
    right; left. auto.
  - apply settle_inv in Hstep. rewrite Hstep.
    destruct r as [msg | ok msg | [] status]; simpl; auto.
    destruct (processing_complete status); simpl; auto.
    right; right. auto.
  - apply settle_inv in Hstep. rewrite Hstep.
    destruct r as [msg | []]; simpl; auto.
    right; right. auto.
Qed.

Lemma step_fresh (w w' : World) (ev : event) :
  step w ev = Some w' ->
  handles_fresh (state w) -> handles_fresh (state w').
Proof.
  intros Hstep Hf h.
  destruct (step_timers w w' ev Hstep)
    as [(_ & _ & -> & ->) | [(_ & _ & -> & ->) | (_ & _ & -> & ->)]].
  - apply Hf.
  - intros [->%elem_of_singleton | Hin%Hf]%elem_of_union; lia.
  - simpl. destruct (processingInterval (state w)); [|apply Hf].
    intros [Hin%Hf _]%elem_of_difference. exact Hin.
Qed.

Lemma run_fresh (evs : list event) (w w' : World) :
  run w evs = Some w' -> handles_fresh (state w) -> handles_fresh (state w').
Proof.
  revert w. induction evs as [|ev evs IH]; intros w Hrun Hf; simpl in Hrun.
  - now injection Hrun as <-.
  - destruct (step w ev) as [w1|] eqn:Hstep; [|discriminate].
    eauto using step_fresh.
Qed.

Lemma initial_fresh : handles_fresh initial_state.
Proof. intros h Hin. now apply not_elem_of_empty in Hin. Qed.

(** A live timer that [processingInterval] does not hold stays so. *)
Lemma step_unheld (w w' : World) (ev : event) (h : nat) :
  step w ev = Some w' -> handles_fresh (state w) ->
  h ∈ intervals (state w) -> processingInterval (state w) <> Some h ->
  h ∈ intervals (state w') /\ processingInterval (state w') <> Some h.
Proof.
  intros Hstep Hf Hin Hne.
  destruct (step_timers w w' ev Hstep)
    as [(-> & _ & -> & _) | [(-> & _ & -> & _) | (-> & _ & -> & _)]].
  - auto.
  - split; [apply elem_of_union; now right|].
    intros [= Heq]. apply Hf in Hin. lia.
  - split; [|exact Hne]. simpl.
    destruct (processingInterval (state w)) as [h'|]; [|exact Hin].
    apply elem_of_difference. split; [exact Hin|].
    intros ->%elem_of_singleton. now apply Hne.
Qed.

Lemma run_unheld (evs : list event) (w w' : World) (h : nat) :
  run w evs = Some w' -> handles_fresh (state w) ->
  h ∈ intervals (state w) -> processingInterval (state w) <> Some h ->
  h ∈ intervals (state w') /\ processingInterval (state w') <> Some h.
Proof.
  revert w. induction evs as [|ev evs IH]; intros w Hrun Hf Hin Hne;
    simpl in Hrun.
  - now injection Hrun as <-.
  - destruct (step w ev) as [w1|] eqn:Hstep; [|discriminate].
    destruct (step_unheld w w1 ev h Hstep Hf Hin Hne) as [Hin1 Hne1].
    eauto using step_fresh.
Qed.

(** The two states of a run and of its continuation. *)
Lemma final_state_app (evs1 evs2 : list event) (s1 s2 : State) :
  final_state evs1 = Some s1 -> final_state (evs1 ++ evs2) = Some s2 ->
  exists w1 w2,
    run initial_world evs1 = Some w1 /\ run w1 evs2 = Some w2
    /\ state w1 = s1 /\ state w2 = s2.
Proof.
  unfold final_state. rewrite run_app.
  destruct (run initial_world evs1) as [w1|]; [|discriminate].
  intros [= <-]. destruct (run w1 evs2) as [w2|] eqn:E; [|discriminate].
  intros [= <-]. exists w1, w2. auto.
Qed.

(** X9: a timer whose handle [processingInterval] no longer holds is never
    cleared: whatever events follow, it stays live, and never becomes the
    held one again. *)
Theorem unheld_timer_stays_live
    (evs1 evs2 : list event) (s1 s2 : State) (h : nat) :
  final_state evs1 = Some s1 -> final_state (evs1 ++ evs2) = Some s2 ->
  h ∈ intervals s1 -> processingInterval s1 <> Some h ->
  h ∈ intervals s2 /\ processingInterval s2 <> Some h.
Proof.
  intros H1 H2 Hin Hne.
  destruct (final_state_app evs1 evs2 s1 s2 H1 H2) as (w1 & w2 & Hr1 & Hr2 & <- & <-).
  apply (run_unheld evs2 w1 w2 h Hr2); auto.
  apply (run_fresh evs1 initial_world w1 Hr1 initial_fresh).
Qed.

Lemma unheld_timer_stays_live_witness :
  exists s1 s2,
    final_state double_launch = Some s1
    /\ final_state (double_launch ++ stop_after_double_launch) = Some s2
    /\ 1%nat ∈ intervals s1
    /\ 1%nat ∈ intervals s2.
Proof.
  assert (H1 : option_map (fun s => (bool_decide (1%nat ∈ intervals s),
                                      processingInterval s))
                 (final_state double_launch) = Some (true, Some 2%nat))
    by (vm_compute; reflexivity).
  assert (H2 : is_Some (final_state (double_launch ++ stop_after_double_launch))).
  { apply (bool_decide_unpack _). vm_compute. exact I. }
  destruct (final_state double_launch) as [s1|] eqn:E1; [|discriminate].
  destruct (final_state (double_launch ++ stop_after_double_launch))
    as [s2|] eqn:E2; [|destruct H2; discriminate].
  injection H1 as Hin Hp. apply bool_decide_eq_true in Hin.
  exists s1, s2. split; [reflexivity|]. split; [reflexivity|].
  split; [exact Hin|].
  refine (proj1 (unheld_timer_stays_live double_launch stop_after_double_launch
                   s1 s2 1%nat E1 E2 Hin _)).
  rewrite Hp. discriminate.
Defined.

(** After the double launch and a confirmed stop: processing is off, nothing
    asks before the page is left, and the first timer still ticks. *)
Example double_launch_then_stop :
  option_map (fun s => (isProcessing s, beforeunload s, elements (intervals s)))
    (final_state (double_launch ++ stop_after_double_launch))
  = Some (false, None, [1%nat]).
Proof. vm_compute. reflexivity. Qed.

(** ** The guard on leaving the page *)

Lemma step_held (w w' : World) (ev : event) :
  step w ev = Some w' -> polling_held (state w) -> polling_held (state w').
Proof.
  intros Hstep Hh.
  destruct (step_timers w w' ev Hstep)
    as [(Hp & Hi & Hl & _) | [(Hp & Hi & Hl & _) | (Hp & Hi & Hl & _)]];
    unfold polling_held; rewrite Hp, Hi, Hl.
  - exact Hh.
  - intros _. eexists. split; [reflexivity|]. apply elem_of_union. left.
    now apply elem_of_singleton.
  - discriminate.
Qed.

Lemma run_held (evs : list event) (w w' : World) :
  run w evs = Some w' -> polling_held (state w) -> polling_held (state w').
Proof.
  revert w. induction evs as [|ev evs IH]; intros w Hrun Hh; simpl in Hrun.
  - now injection Hrun as <-.
  - destruct (step w ev) as [w1|] eqn:Hstep; [|discriminate].
    eauto using step_held.
Qed.

(** X10: along events that start a polling loop only while no processing
    is active, the page asks before it is left exactly while a timer is
    live. *)
Theorem unload_guard_matches_timer (evs : list event) (s : State) :
  final_state evs = Some s ->
  launches_when_idle initial_world evs = true ->
  (beforeunload s = None <-> intervals s = ∅).
Proof.
  unfold final_state. intros Hrun Hidle.
  destruct (run initial_world evs) as [w|] eqn:Hw; [|discriminate].
  injection Hrun as <-.
  destruct (run_tracked evs initial_world w Hw Hidle initial_tracked) as [_ Ht].
  assert (Hh : polling_held (state w)).
  { apply (run_held evs initial_world w Hw). intros [=]. }
  unfold beforeunload. destruct (isProcessing (state w)) eqn:E.
  - split; [discriminate|]. intros He.
    destruct (Hh E) as (h & _ & Hin). rewrite He in Hin.
    now apply not_elem_of_empty in Hin.
  - split; [intros _; now apply Ht | reflexivity].
Qed.

Lemma unload_guard_matches_timer_witness :
  exists s,
    final_state start_stop_start = Some s
    /\ launches_when_idle initial_world start_stop_start = true
    /\ (beforeunload s = None <-> intervals s = ∅).
Proof.
  assert (Hsome : is_Some (final_state start_stop_start)).
  { apply (bool_decide_unpack _). vm_compute. exact I. }
  destruct (final_state start_stop_start) as [s|] eqn:Hrun;
    [|destruct Hsome; discriminate].
  assert (Hidle : launches_when_idle initial_world start_stop_start = true)
    by (vm_compute; reflexivity).
  exists s. split; [reflexivity|]. split; [exact Hidle|].
  exact (unload_guard_matches_timer start_stop_start s Hrun Hidle).
Defined.

(** ** The download section *)

Ltac lookup_frame :=
  repeat (rewrite fn_lookup_insert_ne by discriminate);
  rewrite ?fn_lookup_insert.

(** [updateResultsLog] touches the log and the scroll position, no more. *)
Lemma updateResultsLog_frame (logEntries : option (list LogEntry)) (p : Page) :
  display (updateResultsLog logEntries p) = display p
  /\ width (updateResultsLog logEntries p) = width p
  /\ content_of (updateResultsLog logEntries p) = content_of p
  /\ classList (updateResultsLog logEntries p) = classList p
  /\ options (updateResultsLog logEntries p) = options p
  /\ value (updateResultsLog logEntries p) = value p
  /\ downloadBtn_onclick (updateResultsLog logEntries p) = downloadBtn_onclick p
  /\ alerts (updateResultsLog logEntries p) = alerts p
  /\ console_errors (updateResultsLog logEntries p) = console_errors p.
Proof.
  destruct logEntries as [[|e es]|]; simpl; rewrite ?append_entries;
    repeat split.
Qed.

Lemma updateProgressDisplay_frame (status : Status) (p : Page) :
  display (updateProgressDisplay status p) = display p
  /\ downloadBtn_onclick (updateProgressDisplay status p) = downloadBtn_onclick p.
Proof.
  unfold updateProgressDisplay, assign_width.
  destruct (0 <=? or_zero (progress_percent status))%Z;
    (destruct (current_address status) as [a|]; [destruct (JSString.truthy a)|]);
    split; reflexivity.
Qed.

Lemma step_download_shown (w w' : World) (ev : event) :
  step w ev = Some w' ->
  download_shown (state w) -> download_shown (state w').
Proof.
  unfold download_shown. intros Hstep [Hd Ho]. destruct ev; simpl in Hstep.
  - injection Hstep as <-. simpl. unfold handleFileUpload.
    destruct (negb _); simpl; lookup_frame; auto.
  - destruct (bool_decide _); [|discriminate]. injection Hstep as <-. auto.
  - injection Hstep as <-. simpl. unfold processFile.
    destruct (has_session _); [destruct (negb _)|]; simpl; auto.
  - injection Hstep as <-. simpl. rewrite stopProcessing_globals. auto.
  - destruct (bool_decide _); [|discriminate]. injection Hstep as <-. simpl.
    rewrite updateProgress_state. auto.
  - apply settle_inv in Hstep. rewrite Hstep.
    destruct r as [msg | ok msg | [] result]; simpl;
      unfold hideLoading; destruct (isProcessing (state w)); simpl;
      lookup_frame; auto.
  - apply settle_inv in Hstep. rewrite Hstep.
    destruct r as [msg | ok msg | [] result]; simpl; lookup_frame; auto.
  - apply settle_inv in Hstep. rewrite Hstep.
    destruct r as [msg | ok msg | [] status]; simpl; auto.
    destruct (updateResultsLog_frame (results_log status)
                (updateProgressDisplay status (page (state w))))
      as (Hdis & _ & _ & _ & _ & _ & Hon & _).
    destruct (updateProgressDisplay_frame status (page (state w))) as [Hdis' Hon'].
    destruct (processing_complete status).
    + simpl. lookup_frame. auto.
    + cbn [page on_page]. rewrite Hdis, Hon, Hdis', Hon'. auto.
  - apply settle_inv in Hstep. rewrite Hstep.
    destruct r as [msg | []]; simpl; lookup_frame; auto.
Qed.

Lemma run_download_shown (evs : list event) (w w' : World) :
  run w evs = Some w' ->
  download_shown (state w) -> download_shown (state w').
Proof.
  revert w. induction evs as [|ev evs IH]; intros w Hrun Hs; simpl in Hrun.
  - now injection Hrun as <-.
  - destruct (step w ev) as [w1|] eqn:Hstep; [|discriminate].
    eauto using step_download_shown.
Qed.

(** X11: once shown, the download section is never hidden and its button
    keeps its handler, whatever follows: a new upload, a new launch, a
    stop. *)
Theorem download_stays_shown (evs1 evs2 : list event) (s1 s2 : State) :
  final_state evs1 = Some s1 -> final_state (evs1 ++ evs2) = Some s2 ->
  download_shown s1 -> download_shown s2.
Proof.
  intros H1 H2 Hs.
  destruct (final_state_app evs1 evs2 s1 s2 H1 H2) as (w1 & w2 & _ & Hr2 & <- & <-).
  now apply (run_download_shown evs2 w1 w2 Hr2).
Qed.

Lemma download_stays_shown_witness :
  exists s1 s2,
    final_state run_to_completion = Some s1
    /\ final_state (run_to_completion ++ upload_again) = Some s2
    /\ download_shown s1
    /\ download_shown s2.
Proof.
  assert (H1 : option_map (fun s => (display (page s) downloadSection,
                                      downloadBtn_onclick (page s)))
                 (final_state run_to_completion) = Some ("block", true))
    by (vm_compute; reflexivity).
  assert (H2 : is_Some (final_state (run_to_completion ++ upload_again))).
  { apply (bool_decide_unpack _). vm_compute. exact I. }
  destruct (final_state run_to_completion) as [s1|] eqn:E1; [|discriminate].
  destruct (final_state (run_to_completion ++ upload_again))
    as [s2|] eqn:E2; [|destruct H2; discriminate].
  injection H1 as Hd Ho.
  exists s1, s2. split; [reflexivity|]. split; [reflexivity|].
  assert (Hs : download_shown s1) by (split; assumption).
  split; [exact Hs|].
  exact (download_stays_shown run_to_completion upload_again s1 s2 E1 E2 Hs).
Defined.

(** The new file is in, and the button of the old run now leads to it. *)
Example download_after_new_upload :
  option_map downloadBtn_click (final_state (run_to_completion ++ upload_again))
  = Some (Download (Some "s2")).
Proof. vm_compute. reflexivity. Qed.

(** ** Snapshots replace one another *)


(** A snapshot with a negative percentage after one with 10: the texts are
    those of the last, the bar stays at 10 percent. *)
Example negative_percentage_keeps_width :
  width (updateProgressDisplay
           {| progress_percent := Some (-5)%Z; current_address := None;
              total_processed := None; successful_geocodes := None;
              failed_geocodes := None; processing_complete := false;
              results_log := None |}
           (updateProgressDisplay sample_progress initial_page)) progressFill
  = "10%"
  /\ content_of
       (updateProgressDisplay
          {| progress_percent := Some (-5)%Z; current_address := None;
             total_processed := None; successful_geocodes := None;
             failed_geocodes := None; processing_complete := false;
             results_log := None |}
          (updateProgressDisplay sample_progress initial_page)) progressText
     = textContent "Progress: -5%".
Proof. split; vm_compute; reflexivity. Qed.

(** X13: the log view shows the last non-empty log alone, scrolled to the
    end of what it then holds: a non-empty log replaces whatever an earlier
    log left. *)
Theorem updateResultsLog_replaces
    (earlier : option (list LogEntry)) (entries : list LogEntry) (p : Page) :
  entries <> [] ->
  updateResultsLog (Some entries) (updateResultsLog earlier p)
  = updateResultsLog (Some entries) p
  /\ scrollTop (updateResultsLog (Some entries) p)
     = ScrollHeightOf (resultsLog (updateResultsLog (Some entries) p)).
Proof.
  intros Hne. rewrite !updateResultsLog_nonempty by exact Hne.
  split; [|reflexivity].
  destruct earlier as [[|e es]|]; simpl; rewrite ?append_entries; reflexivity.
Qed.

Lemma updateResultsLog_replaces_witness :
  sample_log 3 <> []
  /\ updateResultsLog (Some (sample_log 3))
       (updateResultsLog (Some (sample_log 200)) initial_page)
     = updateResultsLog (Some (sample_log 3)) initial_page.
Proof.
  assert (H : sample_log 3 <> []) by (vm_compute; discriminate).
  split; [exact H|].
  exact (proj1 (updateResultsLog_replaces (Some (sample_log 200)) (sample_log 3)
                  initial_page H)).
Defined.

(** ** Dropped and selected files *)

(** X14: of the files dropped or selected, the first alone counts: at most
    one request is sent, for the first file and only if its name has the
    extension; and a drop ends the [dragover] look of the upload area. *)
Theorem handleDrop_takes_first_file
    (files : list string) (classes : gset string) (s : State) :
  ("dragover" ∉ fst (handleDrop files classes s))
  /\ snd (handleDrop files classes s) = handleFileSelect files s
  /\ (length (snd (handleFileSelect files s)) <= 1)%nat
  /\ (forall file_name,
         PostUpload file_name ∈ snd (handleFileSelect files s) ->
         head files = Some file_name /\ has_csv_extension file_name)
  /\ ("dragover" ∉ handleDragLeave (handleDragOver classes)).
Proof.
  assert (Hgone : forall c : gset string, "dragover" ∉ c ∖ {[ "dragover" ]}).
  { intros c [_ H]%elem_of_difference. apply H. now apply elem_of_singleton. }
  split; [apply Hgone|]. split; [reflexivity|].
  split; [|split; [|apply Hgone]].
  - destruct files as [|f fs]; simpl; [lia|].
    unfold handleFileUpload. destruct (negb _); simpl; lia.
  - intros file_name. destruct files as [|f fs]; simpl.
    + intros H. now apply not_elem_of_nil in H.
    + unfold handleFileUpload.
      destruct (JSString.endsWith (JSString.toLowerCase f) ".csv") eqn:E; simpl.
      * intros [= <-]%list_elem_of_singleton. split; [reflexivity|].
        now apply JSStringFacts.csv_test_spec.
      * intros H. now apply not_elem_of_nil in H.
Qed.

(** ** [formatDuration] *)

Module Binary64Floor.
Import Binary64 Binary64Facts.
Local Open Scope Z_scope.



End Binary64Floor.



(** The quotients of the model are those of the kernel's floats. *)
Example div_agrees_with_primitive_floats :
  forallb (fun '(n, d) =>
             same_float (to_spec_float (Binary64.div (Binary64.of_Z n)
                                                     (Binary64.of_Z d)))
                        (primitive_quotient n d))
          [(7325, 3600); (3599, 60); (59, 60); (125, 60); (3725, 60);
           (1125899906842623, 3600); (1125899906842623, 60)]%Z
  = true.
Proof. vm_compute. reflexivity. Qed.
